(** * Shallow embedding of the account-automation bot (src/bot.py)

    The development follows the five components of the program: the selector
    learning store ([SelectorLearner]), the selector resolver
    ([find_element_robust]), the interaction categorizer, the device profile
    generator with the stealth script synthesizer, and the registration
    flow ([got_email]).  Each module embeds the Python functions of one
    component; the theorems about them come after all definitions. *)

From Stdlib Require Import ZArith String Ascii List Bool Lia.
From stdpp Require Import base option list gmap strings pretty fin_maps.

Local Open Scope string_scope.
Local Open Scope list_scope.
Local Open Scope Z_scope.

(** ** Python-level helpers shared by the components *)

Module Py.

(** Exceptions that the embedded functions can raise. *)
Inductive exn : Type :=
| FileNotFoundError
| PermissionError
| JSONDecodeError
| KeyError (key : string).

(** A computation that returns a value or raises. *)
Inductive result (A : Type) : Type :=
| Ok (a : A)
| Raise (e : exn).
Arguments Ok {A} a.
Arguments Raise {A} e.

Definition is_ok {A} (r : result A) : bool :=
  match r with Ok _ => true | Raise _ => false end.

#[export] Instance result_ret : MRet result := fun A a => Ok a.
#[export] Instance result_bind : MBind result := fun A B f m =>
  match m with Ok a => f a | Raise e => Raise e end.
#[export] Instance result_fmap : FMap result := fun A B f m =>
  match m with Ok a => Ok (f a) | Raise e => Raise e end.

(** [d[k]] on a dictionary: [KeyError] when the key is absent. *)
Definition getitem {V} (d : gmap string V) (k : string) : result V :=
  match d !! k with Some v => Ok v | None => Raise (KeyError k) end.

(** [str.lower] and [str.upper], on the ASCII letters. *)
Definition lower_ascii (c : ascii) : ascii :=
  let n := nat_of_ascii c in
  if (andb (Nat.leb 65 n) (Nat.leb n 90)) then ascii_of_nat (n + 32) else c.

Definition upper_ascii (c : ascii) : ascii :=
  let n := nat_of_ascii c in
  if (andb (Nat.leb 97 n) (Nat.leb n 122)) then ascii_of_nat (n - 32) else c.

Fixpoint lower (s : string) : string :=
  match s with
  | EmptyString => EmptyString
  | String c s' => String (lower_ascii c) (lower s')
  end.

Fixpoint upper (s : string) : string :=
  match s with
  | EmptyString => EmptyString
  | String c s' => String (upper_ascii c) (upper s')
  end.

(** [w in t] on strings: [w] occurs in [t] as a contiguous substring. *)
Fixpoint contains (w t : string) : bool :=
  String.prefix w t ||
  match t with
  | EmptyString => false
  | String _ t' => contains w t'
  end.

(** [drop_prefix w t]: the rest of [t] after its prefix [w]. *)
Fixpoint drop_prefix (w t : string) : string :=
  match w, t with
  | String _ w', String _ t' => drop_prefix w' t'
  | _, _ => t
  end.

(** [before sep t]: the part of [t] before the first occurrence of [sep]
    (all of [t] when there is none). *)
Fixpoint before (sep t : string) : string :=
  if String.prefix sep t then EmptyString
  else match t with
       | EmptyString => EmptyString
       | String c t' => String c (before sep t')
       end.

(** [after sep t]: the part of [t] after the first occurrence of [sep]. *)
Fixpoint after (sep t : string) : string :=
  if String.prefix sep t then drop_prefix sep t
  else match t with
       | EmptyString => EmptyString
       | String _ t' => after sep t'
       end.

(** [t.split(sep)[1]], used only under the guard [sep in t]: the text
    between the first and the second occurrence of [sep]. *)
Definition split_second (sep t : string) : string :=
  before sep (after sep t).

End Py.

(** ** Selector learning store: [class SelectorLearner] *)

Module Learner.
Import Py.

Definition LEARNED_SELECTORS_FILE : string := "learned_selectors.json".

(** One learned entry, the dictionary built in [add_selector];
    [last_success] is a key that exists only after a repeated record. *)
Record entry : Type := Entry {
  selector : string;
  context : string;
  learned_at : string;
  success_count : Z;
  last_success : option string
}.

(** [self.learned_selectors]: category -> list of entries. *)
Abbreviation store := (gmap string (list entry)).

(** A file on disk as [open] and [json.load] see it: text that parses to a
    store, text that is not JSON, or a file that cannot be opened. *)
Inductive file : Type :=
| Json (v : store)
| Malformed (text : string)
| Unreadable.

Abbreviation filesystem := (gmap string file).

(** The learner object together with the disk it persists to. *)
Record learner : Type := Learner {
  learned_selectors : store;
  disk : filesystem
}.

Definition default_store : store :=
  <["signin_selectors" := []]>
    (<["create_account_selectors" := []]>
       (<["continue_selectors" := []]> ∅)).



(** [save_learned_selectors]: [json.dump] of the whole store. *)
Definition save_learned_selectors (l : learner) : learner :=
  {| learned_selectors := learned_selectors l;
     disk := <[LEARNED_SELECTORS_FILE := Json (learned_selectors l)]> (disk l) |}.

(** The [for entry in ...] loop of [add_selector] with its [break]: the
    first entry with this selector is bumped; [None] when no entry has it
    ([existing] stays [False]). *)
Fixpoint bump_existing (sel now : string) (l : list entry) : option (list entry) :=
  match l with
  | [] => None
  | e :: l' =>
      if decide (selector e = sel)
      then Some ({| selector := selector e;
                    context := context e;
                    learned_at := learned_at e;
                    success_count := success_count e + 1;
                    last_success := Some now |} :: l')
      else match bump_existing sel now l' with
           | Some r => Some (e :: r)
           | None => None
           end
  end.

(** [add_selector(category, selector, context)].  [now_entry] and
    [now_bump] are the two readings of [datetime.now().isoformat()]. *)
Definition add_selector (category sel ctx : string) (now_entry now_bump : string)
    (l : learner) : learner :=
  let st := learned_selectors l in
  let st := match st !! category with
            | None => <[category := []]> st
            | Some _ => st
            end in
  let selector_entry := Entry sel ctx now_entry 1 None in
  let entries := default [] (st !! category) in
  let entries' := match bump_existing sel now_bump entries with
                  | Some r => r
                  | None => entries ++ [selector_entry]
                  end in
  save_learned_selectors
    {| learned_selectors := <[category := entries']> st; disk := disk l |}.

(** The learned locators of a category, in the order of the store:
    [[entry["selector"] for entry in self.learned_selectors.get(category, [])]]. *)
Definition learned_of (st : store) (category : string) : list string :=
  selector <$> default [] (st !! category).

(** [get_combined_selectors(category, base_selectors)]. *)
Definition get_combined_selectors (st : store) (category : string)
    (base_selectors : list string) : list string :=
  let learned := learned_of st category in
  learned ++ filter (fun s => s ∉ learned) base_selectors.

(** A learner whose store has one locator, recorded once. *)
Definition seen_once : learner :=
  Learner {[ "signin_selectors" := [Entry "#signin" "" "2024-01-01T00:00:00" 1 None] ]} ∅.

(** The entries recorded for one locator in one category. *)
Definition entries_for (st : store) (category sel : string) : list entry :=
  filter (fun e => selector e = sel) (default [] (st !! category)).

(** The file holds the store that is in memory. *)
Definition persisted (l : learner) : Prop :=
  disk l !! LEARNED_SELECTORS_FILE = Some (Json (learned_selectors l)).

(** Recording one pair twice, starting from [l]: one entry for the pair
    with counter 2, and the file written after each record. *)
Definition recorded_twice (l : learner) (category sel ctx1 ctx2 : string)
    (t1 t2 t3 t4 : string) : Prop :=
  let l1 := add_selector category sel ctx1 t1 t2 l in
  let l2 := add_selector category sel ctx2 t3 t4 l1 in
  (∃ e, entries_for (learned_selectors l2) category sel = [e] ∧ success_count e = 2)
  ∧ persisted l1 ∧ persisted l2.

(** In the merged list the learned locators come first, in store order,
    and every other default comes after all of them. *)
Definition learned_first (st : store) (category : string) (base : list string) : Prop :=
  let merged := get_combined_selectors st category base in
  take (length (learned_of st category)) merged = learned_of st category
  ∧ (∀ x, x ∈ base → x ∈ merged)
  ∧ (∀ i j x y, merged !! i = Some x → merged !! j = Some y →
       x ∈ learned_of st category → y ∉ learned_of st category → (i < j)%nat).

(** The merge as the specification words it: learned first, and no
    locator twice. *)
Definition merged_as_specified (st : store) (category : string) (base : list string) : Prop :=
  learned_first st category base ∧ NoDup (get_combined_selectors st category base).

End Learner.

(** ** Selector resolver: [find_element_robust] *)

Module Resolver.

(** What one [page.wait_for_selector] call does: it returns, raises
    [PlaywrightTimeoutError], or raises another [Exception]. *)
Inductive outcome : Type :=
| Found
| TimedOut
| Failed.

Section Probe.
(** The live document; a probe may change it (time passes, the page
    loads), so the page is threaded through the calls. *)
Variable page : Type.
Variable wait_for_selector : page -> string -> Z -> outcome * page.

(** [find_element_robust(page, selectors, timeout)].  Besides the
    returned selector the embedding gives the page after the call and
    the selectors that were probed, in probing order. *)
Fixpoint find_element_robust (pg : page) (selectors : list string) (timeout : Z)
    : option string * page * list string :=
  match selectors with
  | [] => (None, pg, [])
  | s :: rest =>
      match wait_for_selector pg s timeout with
      | (Found, pg') => (Some s, pg', [s])
      | (TimedOut, pg') | (Failed, pg') =>
          let '(r, pg'', log) := find_element_robust pg' rest timeout in
          (r, pg'', s :: log)
      end
  end.

(** Probing every selector of [l] in turn fails; the page afterwards. *)
Fixpoint all_fail (pg : page) (l : list string) (timeout : Z) : option page :=
  match l with
  | [] => Some pg
  | s :: rest =>
      match wait_for_selector pg s timeout with
      | (Found, _) => None
      | (TimedOut, pg') | (Failed, pg') => all_fail pg' rest timeout
      end
  end.
End Probe.

(** A static document: a probe succeeds exactly on the selectors that
    match, and leaves the document as it is. *)
Definition static_probe (matches : string -> bool) (pg : unit) (s : string) (timeout : Z)
    : outcome * unit :=
  (if matches s then Found else TimedOut, pg).

End Resolver.

(** ** Interaction categorizer: [categorize_interaction] *)

Module Categorizer.
Import Py.

(** The [attributes] object recorded with a click; only [type] is read. *)
Record attributes : Type := Attributes {
  attr_type : option string
}.

(** A recorded interaction; both keys are read with [dict.get]. *)
Record interaction : Type := Interaction {
  text : option string;
  attrs : option attributes
}.

(** [any(word in text for word in words)]. *)
Definition any_in (words : list string) (t : string) : bool :=
  existsb (fun word => contains word t) words.

Definition categorize_interaction (context : string) (i : interaction) : string :=
  let t := lower (default "" (text i)) in
  let ty := attrs i ≫= attr_type in
  if decide (context = "signin") then "signin_selectors"
  else if any_in ["continue"; "verify"; "create"; "submit"] t then "create_account_selectors"
  else if any_in ["continue"; "next"; "proceed"] t then "continue_selectors"
  else if bool_decide (ty = Some "submit" ∨ ty = Some "button") then "create_account_selectors"
  else "signin_selectors".

End Categorizer.

(** ** The shared randomness source: [random] *)

Module Rng.

(** The values the generator will hand out next, as raw naturals; each
    [random.*] call consumes one and reduces it to its own range. *)
Definition rng : Type := list nat.

Definition gen (A : Type) : Type := rng -> A * rng.

#[export] Instance gen_ret : MRet gen := fun A a s => (a, s).
#[export] Instance gen_bind : MBind gen := fun A B f m s =>
  let '(a, s') := m s in f a s'.

Definition draw : gen nat := fun s =>
  match s with
  | [] => (0%nat, [])
  | n :: s' => (n, s')
  end.

(** [random.randint(a, b)], both ends included. *)
Definition randint (a b : Z) : gen Z :=
  n ← draw; mret (a + Z.of_nat n `mod` (b - a + 1)).

(** [random.choice(l)] on a non-empty literal list. *)
Definition choice {A} (l : list A) (d : A) : gen A :=
  n ← draw; mret (nth (n mod length l)%nat l d).

Fixpoint pick_weighted {A} (r : Z) (l : list (A * Z)) (d : A) : A :=
  match l with
  | [] => d
  | (x, w) :: rest => if r <? w then x else pick_weighted (r - w) rest d
  end.

(** [random.choices(population, weights)[0]] with integer weights. *)
Definition choices {A} (l : list (A * Z)) (d : A) : gen A :=
  n ← draw; mret (pick_weighted (Z.of_nat n `mod` foldr Z.add 0 (l.*2)) l d).

(** [random.random()], in thousandths: a value in [0, 1000). *)
Definition random : gen Z :=
  n ← draw; mret (Z.of_nat n `mod` 1000).

(** [round(random.uniform(a, b), 1)], in tenths, for bounds in tenths. *)
Definition uniform_tenths (a b : Z) : gen Z := randint a b.

(** [P] holds of the value of [g] whatever the source hands out. *)
Definition always {A} (P : A -> Prop) (g : gen A) : Prop := forall s, P (g s).1.

End Rng.

(** ** Device profiles: [generate_*_profile], [generate_ultimate_stealth_profile] *)

Module Profile.
Import Py Rng.

(** The [{"width": w, "height": h}] dictionaries. *)
Definition size (w h : Z) : gmap string Z := {[ "width" := w; "height" := h ]}.

(** A profile dictionary.  Every key may be missing; the values have the
    types the generators give them.  Non-integer numbers are kept scaled:
    [device_scale_factor] in hundredths, [connection_downlink] in tenths,
    the coordinates in ten-thousandths of a degree. *)
Record profile : Type := MkProfile {
  type : option string;
  os : option string;
  browser : option string;
  user_agent : option string;
  webgl_vendor : option string;
  webgl_renderer : option string;
  viewport : option (gmap string Z);
  screen : option (gmap string Z);
  device_scale_factor : option Z;
  hardware_concurrency : option Z;
  device_memory : option Z;
  max_touch_points : option Z;
  platform : option string;
  timezone : option string;
  locale : option string;
  geolocation : option (Z * Z);
  city : option string;
  connection_type : option string;
  connection_rtt : option Z;
  connection_downlink : option Z;
  plugins : option Z;
  is_mobile : option bool
}.

Definition empty_profile : profile :=
  MkProfile None None None None None None None None None None None
            None None None None None None None None None None None.

(** The dictionary literal returned by the three desktop generators. *)
Definition desktop (os_name browser_choice ua vendor renderer : string)
    (viewport_size screen_size : gmap string Z) (scale cores memory : Z)
    (platform_name : string) : profile :=
  {| type := Some "desktop"; os := Some os_name; browser := Some browser_choice;
     user_agent := Some ua; webgl_vendor := Some vendor;
     webgl_renderer := Some renderer; viewport := Some viewport_size;
     screen := Some screen_size; device_scale_factor := Some scale;
     hardware_concurrency := Some cores; device_memory := Some memory;
     max_touch_points := Some 0; platform := Some platform_name;
     timezone := None; locale := None; geolocation := None; city := None;
     connection_type := None; connection_rtt := None;
     connection_downlink := None; plugins := None; is_mobile := None |}.

Definition generate_random_chrome_version : gen string :=
  major ← randint 119 122;
  minor ← randint 0 99;
  build ← randint 1000 9999;
  patch ← randint 100 999;
  mret (pretty major +:+ "." +:+ pretty minor +:+ "." +:+ pretty build +:+ "." +:+ pretty patch).

Definition generate_windows_profile : gen profile :=
  win_version ← choice ["10.0"; "11.0"] "10.0";
  browser_choice ← choices [("chrome", 65); ("firefox", 20); ("edge", 15)] "chrome";
  '(ua, vendor, renderer) ←
    (if decide (browser_choice = "chrome") then
       chrome_version ← generate_random_chrome_version;
       g ← choice
         [("Google Inc. (NVIDIA)", "ANGLE (NVIDIA, NVIDIA GeForce RTX 3060 Direct3D11 vs_5_0 ps_5_0)");
          ("Google Inc. (NVIDIA)", "ANGLE (NVIDIA, NVIDIA GeForce RTX 4060 Direct3D11 vs_5_0 ps_5_0)");
          ("Google Inc. (NVIDIA)", "ANGLE (NVIDIA, NVIDIA GeForce GTX 1660 Direct3D11 vs_5_0 ps_5_0)");
          ("Google Inc. (AMD)", "ANGLE (AMD, AMD Radeon RX 580 Direct3D11 vs_5_0 ps_5_0)");
          ("Google Inc. (AMD)", "ANGLE (AMD, AMD Radeon RX 6600 Direct3D11 vs_5_0 ps_5_0)");
          ("Google Inc. (Intel)", "ANGLE (Intel, Intel(R) UHD Graphics 630 Direct3D11 vs_5_0 ps_5_0)");
          ("Google Inc. (Intel)", "ANGLE (Intel, Intel(R) Iris Xe Graphics Direct3D11 vs_5_0 ps_5_0)")]
         ("", "");
       mret ("Mozilla/5.0 (Windows NT " +:+ win_version
             +:+ "; Win64; x64) AppleWebKit/537.36 (KHTML, like Gecko) Chrome/"
             +:+ chrome_version +:+ " Safari/537.36", g.1, g.2)
     else if decide (browser_choice = "firefox") then
       v ← randint 115 120;
       let firefox_version := pretty v +:+ ".0" in
       renderer ← choice
         ["NVIDIA GeForce RTX 3060/PCIe/SSE2";
          "NVIDIA GeForce GTX 1660/PCIe/SSE2";
          "AMD Radeon RX 580 Series";
          "Intel(R) UHD Graphics 630"] "";
       mret ("Mozilla/5.0 (Windows NT " +:+ win_version +:+ "; Win64; x64; rv:"
             +:+ firefox_version +:+ ") Gecko/20100101 Firefox/" +:+ firefox_version,
             "Mozilla", renderer)
     else
       a ← randint 115 120;
       b ← randint 1800 1900;
       c ← randint 60 99;
       let edge_version := pretty a +:+ ".0." +:+ pretty b +:+ "." +:+ pretty c in
       g ← choice
         [("Google Inc. (Microsoft)", "ANGLE (NVIDIA, NVIDIA GeForce RTX 3060 Direct3D11 vs_5_0 ps_5_0, D3D11)");
          ("Google Inc. (Microsoft)", "ANGLE (NVIDIA, NVIDIA GeForce GTX 1660 Direct3D11 vs_5_0 ps_5_0, D3D11)");
          ("Google Inc. (Microsoft)", "ANGLE (AMD, AMD Radeon RX 580 Direct3D11 vs_5_0 ps_5_0, D3D11)");
          ("Google Inc. (Microsoft)", "ANGLE (Intel, Intel(R) UHD Graphics 630 Direct3D11 vs_5_0 ps_5_0, D3D11)")]
         ("", "");
       mret ("Mozilla/5.0 (Windows NT " +:+ win_version
             +:+ "; Win64; x64) AppleWebKit/537.36 (KHTML, like Gecko) Chrome/"
             +:+ edge_version +:+ " Safari/537.36 Edg/" +:+ edge_version, g.1, g.2));
  sv ← choice
    [(size 1920 1080, size 1920 1080);
     (size 1920 1080, size 1536 864);
     (size 1366 768, size 1366 768);
     (size 1366 768, size 1280 720);
     (size 1536 864, size 1536 864);
     (size 1536 864, size 1366 768)] (∅, ∅);
  scale ← choice [100; 125; 150] 100;
  cores ← randint 4 16;
  memory ← choice [4; 8; 16; 32] 4;
  mret (desktop "Windows" browser_choice ua vendor renderer sv.2 sv.1 scale cores memory "Win32").

Definition generate_macos_profile : gen profile :=
  mac_version ← choice ["10_15_7"; "11_7_10"; "12_6_8"; "13_5_2"; "14_0"] "10_15_7";
  browser_choice ← choices [("safari", 50); ("chrome", 35); ("firefox", 15)] "safari";
  '(ua, vendor, renderer) ←
    (if decide (browser_choice = "safari") then
       s1 ← randint 16 17;
       s2 ← randint 0 5;
       let safari_version := pretty s1 +:+ "." +:+ pretty s2 in
       w1 ← randint 605 618;
       w2 ← randint 1 3;
       w3 ← randint 10 20;
       let webkit_version := pretty w1 +:+ "." +:+ pretty w2 +:+ "." +:+ pretty w3 in
       renderer ← choice
         ["Apple M1";
          "Apple M1 Pro";
          "Apple M2";
          "Apple GPU";
          "AMD Radeon Pro 5500M OpenGL Engine";
          "Intel(R) Iris(TM) Plus Graphics OpenGL Engine"] "";
       mret ("Mozilla/5.0 (Macintosh; Intel Mac OS X " +:+ mac_version
             +:+ ") AppleWebKit/" +:+ webkit_version +:+ " (KHTML, like Gecko) Version/"
             +:+ safari_version +:+ " Safari/" +:+ webkit_version,
             "Apple Inc.", renderer)
     else if decide (browser_choice = "chrome") then
       chrome_version ← generate_random_chrome_version;
       renderer ← choice
         ["ANGLE (Apple, ANGLE Metal Renderer: Apple M1, Unspecified Version)";
          "ANGLE (Apple, ANGLE Metal Renderer: Apple M2, Unspecified Version)";
          "ANGLE (Apple, AMD Radeon Pro 5500M, OpenGL 4.1)";
          "ANGLE (Apple, Intel(R) Iris(TM) Plus Graphics, OpenGL 4.1)"] "";
       mret ("Mozilla/5.0 (Macintosh; Intel Mac OS X " +:+ mac_version
             +:+ ") AppleWebKit/537.36 (KHTML, like Gecko) Chrome/"
             +:+ chrome_version +:+ " Safari/537.36",
             "Google Inc. (Apple)", renderer)
     else
       v ← randint 115 120;
       let firefox_version := pretty v +:+ ".0" in
       renderer ← choice
         ["Apple M1";
          "Apple M2";
          "AMD Radeon Pro 5500M OpenGL Engine";
          "Intel(R) Iris(TM) Plus Graphics OpenGL Engine"] "";
       mret ("Mozilla/5.0 (Macintosh; Intel Mac OS X " +:+ mac_version
             +:+ ") Gecko/20100101 Firefox/" +:+ firefox_version,
             "Mozilla", renderer));
  sv ← choice
    [(size 1440 900, size 1440 900);
     (size 1440 900, size 1280 800);
     (size 1680 1050, size 1680 1050);
     (size 1680 1050, size 1440 900);
     (size 1920 1200, size 1920 1200);
     (size 1920 1200, size 1680 1050)] (∅, ∅);
  scale ← choice [100; 200] 100;
  cores ← randint 4 12;
  memory ← choice [8; 16; 32] 8;
  mret (desktop "macOS" browser_choice ua vendor renderer sv.2 sv.1 scale cores memory "MacIntel").

Definition generate_linux_profile : gen profile :=
  browser_choice ← choices [("firefox", 60); ("chrome", 25); ("chromium", 15)] "firefox";
  '(ua, vendor, renderer) ←
    (if decide (browser_choice = "firefox") then
       v ← randint 115 120;
       let firefox_version := pretty v +:+ ".0" in
       renderer ← choice
         ["NVIDIA GeForce RTX 3060/PCIe/SSE2";
          "NVIDIA GeForce RTX 3060/PCIe/SSE2";
          "NVIDIA GeForce RTX 3070/PCIe/SSE2";
          "NVIDIA GeForce GTX 1660/PCIe/SSE2";
          "AMD Radeon RX 580 Series (POLARIS10, DRM 3.42.0, 5.15.0-91-generic, LLVM 15.0.7)";
          "Intel(R) UHD Graphics 630 (CFL GT2)";
          "Mesa DRI Intel(R) UHD Graphics 630 (CFL GT2)"] "";
       mret ("Mozilla/5.0 (X11; Linux x86_64; rv:" +:+ firefox_version
             +:+ ") Gecko/20100101 Firefox/" +:+ firefox_version,
             "Mozilla", renderer)
     else if decide (browser_choice = "chrome") then
       chrome_version ← generate_random_chrome_version;
       g ← choice
         [("Google Inc. (NVIDIA)", "ANGLE (NVIDIA, NVIDIA GeForce RTX 3060/PCIe/SSE2, OpenGL 4.5.0)");
          ("Google Inc. (NVIDIA)", "ANGLE (NVIDIA, NVIDIA GeForce GTX 1660/PCIe/SSE2, OpenGL 4.6.0)");
          ("Google Inc. (AMD)", "ANGLE (AMD, AMD Radeon RX 580 Series (POLARIS10, DRM 3.42.0), OpenGL 4.6.0)");
          ("Google Inc. (Intel)", "ANGLE (Intel, Mesa DRI Intel(R) UHD Graphics 630, OpenGL 4.6.0)");
          ("Google Inc. (Intel)", "ANGLE (Intel, Mesa DRI Intel(R) Iris Xe Graphics, OpenGL 4.6.0)")]
         ("", "");
       mret ("Mozilla/5.0 (X11; Linux x86_64) AppleWebKit/537.36 (KHTML, like Gecko) Chrome/"
             +:+ chrome_version +:+ " Safari/537.36", g.1, g.2)
     else
       a ← randint 115 120;
       b ← randint 5700 5900;
       c ← randint 100 200;
       let chromium_version := pretty a +:+ ".0." +:+ pretty b +:+ "." +:+ pretty c in
       g ← choice
         [("Google Inc. (NVIDIA)", "NVIDIA GeForce RTX 3060/PCIe/SSE2");
          ("Google Inc. (NVIDIA)", "NVIDIA GeForce GTX 1660/PCIe/SSE2");
          ("Google Inc. (AMD)", "AMD Radeon RX 580 Series (POLARIS10, DRM 3.42.0)");
          ("Google Inc. (Intel)", "Mesa DRI Intel(R) UHD Graphics 630 (CFL GT2)");
          ("Google Inc. (Intel)", "Mesa DRI Intel(R) Iris Xe Graphics")]
         ("", "");
       mret ("Mozilla/5.0 (X11; Linux x86_64) AppleWebKit/537.36 (KHTML, like Gecko) Chrome/"
             +:+ chromium_version +:+ " Safari/537.36", g.1, g.2));
  sv ← choice
    [(size 1920 1080, size 1920 1080);
     (size 1920 1080, size 1600 900);
     (size 1920 1080, size 1366 768);
     (size 1600 900, size 1600 900);
     (size 1600 900, size 1366 768);
     (size 1366 768, size 1366 768);
     (size 1366 768, size 1280 720)] (∅, ∅);
  scale ← choice [100; 125] 100;
  cores ← randint 2 16;
  memory ← choice [4; 8; 16] 4;
  mret (desktop "Linux" browser_choice ua vendor renderer sv.2 sv.1 scale cores memory "Linux x86_64").

(** One row of the table in [generate_random_location]. *)
Record location : Type := Location {
  loc_timezone : string;
  loc_locale : string;
  loc_latitude : Z;
  loc_longitude : Z;
  loc_city : string
}.

Definition generate_random_location : gen location :=
  choice
    [Location "America/New_York" "en-US" 407589 (-739851) "New York";
     Location "America/Los_Angeles" "en-US" 340522 (-1182437) "Los Angeles";
     Location "America/Chicago" "en-US" 418781 (-876298) "Chicago";
     Location "America/Phoenix" "en-US" 334484 (-1120740) "Phoenix";
     Location "America/Denver" "en-US" 397392 (-1049903) "Denver";
     Location "America/Toronto" "en-CA" 436532 (-793832) "Toronto";
     Location "America/Vancouver" "en-CA" 492827 (-1231207) "Vancouver";
     Location "Europe/London" "en-GB" 515074 (-1278) "London";
     Location "Europe/London" "en-GB" 534808 (-22426) "Manchester";
     Location "Australia/Sydney" "en-AU" (-338688) 1512093 "Sydney";
     Location "Australia/Melbourne" "en-AU" (-378136) 1449631 "Melbourne"]
    (Location "" "" 0 0 "").

(** The [for generator, weight in device_generators] loop: the first
    generator whose cumulative weight reaches [rand_val]; [None] is the
    [else] branch of the loop.  Weights are in thousandths. *)
Fixpoint select_generator (rand_val cumulative_weight : Z)
    (device_generators : list (gen profile * Z)) : option (gen profile) :=
  match device_generators with
  | [] => None
  | (generator, weight) :: rest =>
      let cumulative_weight := cumulative_weight + weight in
      if rand_val <=? cumulative_weight then Some generator
      else select_generator rand_val cumulative_weight rest
  end.

Definition generate_ultimate_stealth_profile : gen profile :=
  let device_generators :=
    [(generate_windows_profile, 450);
     (generate_macos_profile, 300);
     (generate_linux_profile, 250)] in
  rand_val ← random;
  p ← default generate_windows_profile (select_generator rand_val 0 device_generators);
  loc ← generate_random_location;
  ct ← choice ["4g"; "wifi"; "ethernet"] "4g";
  rtt ← randint 20 150;
  downlink ← uniform_tenths 10 500;
  npl ← randint 2 5;
  mret {| type := type p; os := os p; browser := browser p;
          user_agent := user_agent p; webgl_vendor := webgl_vendor p;
          webgl_renderer := webgl_renderer p; viewport := viewport p;
          screen := screen p; device_scale_factor := device_scale_factor p;
          hardware_concurrency := hardware_concurrency p;
          device_memory := device_memory p;
          max_touch_points := max_touch_points p; platform := platform p;
          timezone := Some (loc_timezone loc); locale := Some (loc_locale loc);
          geolocation := Some (loc_latitude loc, loc_longitude loc);
          city := Some (loc_city loc);
          connection_type := Some ct; connection_rtt := Some rtt;
          connection_downlink := Some downlink; plugins := Some npl;
          is_mobile := is_mobile p |}.

(** A renderer string in Chromium's ANGLE form. *)
Definition is_angle (renderer : string) : bool := String.prefix "ANGLE (" renderer.

(** The vendor string every Chromium-family browser reports. *)
Definition is_google_vendor (vendor : string) : bool := String.prefix "Google Inc." vendor.

(** The WebGL vendor family that goes with a browser: Gecko reports
    [Mozilla] and the bare driver string, Safari reports [Apple Inc.],
    the Chromium family reports a [Google Inc.] vendor. *)
Definition webgl_family_ok (browser_name vendor renderer : string) : bool :=
  if decide (browser_name = "firefox") then
    bool_decide (vendor = "Mozilla") && negb (is_angle renderer)
  else if decide (browser_name = "safari") then
    bool_decide (vendor = "Apple Inc.") && negb (is_angle renderer)
  else is_google_vendor vendor.

(** The OS/browser combinations of the three weight tables. *)
Definition combination_ok (os_name browser_name : string) : bool :=
  bool_decide ((os_name, browser_name) ∈
    [("Windows", "chrome"); ("Windows", "firefox"); ("Windows", "edge");
     ("macOS", "safari"); ("macOS", "chrome"); ("macOS", "firefox");
     ("Linux", "firefox"); ("Linux", "chrome"); ("Linux", "chromium")]).

(** Viewport inside the screen, on both axes. *)
Definition viewport_fits (vp sc : gmap string Z) : bool :=
  match vp !! "width", vp !! "height", sc !! "width", sc !! "height" with
  | Some vw, Some vh, Some sw, Some sh => (vw <=? sw) && (vh <=? sh)
  | _, _, _, _ => false
  end.

(** The consistency invariant of a generated profile. *)
Definition consistent (p : profile) : bool :=
  match os p, browser p, webgl_vendor p, webgl_renderer p, viewport p, screen p with
  | Some o, Some b, Some v, Some r, Some vp, Some sc =>
      combination_ok o b && webgl_family_ok b v r && viewport_fits vp sc
  | _, _, _, _, _, _ => false
  end.

End Profile.

(** ** Stealth script synthesizer: [generate_ultimate_stealth_script] *)

Module Synth.
Import Py Profile.

(** The dictionary that the function rebinds [profile] to: exactly these
    sixteen keys, each read with [profile.get(key, default)]. *)
Record script_profile : Type := ScriptProfile {
  n_os : string;
  n_type : string;
  n_platform : string;
  n_user_agent : string;
  n_hardware_concurrency : Z;
  n_device_memory : Z;
  n_max_touch_points : Z;
  n_screen : gmap string Z;
  n_connection_type : string;
  n_connection_rtt : Z;
  n_connection_downlink : Z;
  n_webgl_vendor : string;
  n_webgl_renderer : string;
  n_locale : string;
  n_city : string;
  n_is_mobile : bool
}.

Definition with_defaults (p : profile) : script_profile :=
  {| n_os := default "Windows" (os p);
     n_type := default "desktop" (type p);
     n_platform := default "Win32" (platform p);
     n_user_agent :=
       default "Mozilla/5.0 (Windows NT 10.0; Win64; x64) AppleWebKit/537.36" (user_agent p);
     n_hardware_concurrency := default 8 (hardware_concurrency p);
     n_device_memory := default 16 (device_memory p);
     n_max_touch_points := default 0 (max_touch_points p);
     n_screen := default (size 1920 1080) (screen p);
     n_connection_type := default "wifi" (connection_type p);
     n_connection_rtt := default 50 (connection_rtt p);
     n_connection_downlink := default 250 (connection_downlink p);
     n_webgl_vendor := default "Google Inc." (webgl_vendor p);
     n_webgl_renderer := default "Generic GPU" (webgl_renderer p);
     n_locale := default "en-US" (locale p);
     n_city := default "Unknown" (city p);
     n_is_mobile := default false (is_mobile p) |}.

(** [str] of a number kept in tenths: 250 is printed as 25.0. *)
Definition tenths_str (t : Z) : string :=
  (if t <? 0 then "-" else "") +:+ pretty (Z.abs t / 10) +:+ "." +:+ pretty (Z.abs t `mod` 10).

(** The text of the f-string is a sequence of segments: [Lit k] is the
    k-th literal stretch of the template (lines 320-1457 of bot.py, in
    order), [Text s] the value substituted into the hole after it. *)
Inductive segment : Type :=
| Lit (k : nat)
| Text (s : string).

Definition battery_snippet : string :=
  "if (!navigator.battery) {navigator.battery = {charging: Math.random() > 0.5, level: Math.random()};}".

(** The forty replacement fields of the f-string, in source order.  The
    lookups written [profile.get('browser', ...)] and
    [profile.get('timezone', ...)] read the rebound dictionary, which has
    neither key, so they give their defaults. *)
Definition holes (n : script_profile) : list (result string) :=
  let s := @Ok string in
  let i (z : Z) := @Ok string (pretty z) in
  let width := pretty <$> getitem (n_screen n) "width" in
  let height := pretty <$> getitem (n_screen n) "height" in
  let ua := n_user_agent n in
  [ s (n_os n); s (upper (n_type n)); s (n_os n); s (n_platform n); s ua;
    i (n_hardware_concurrency n); i (n_device_memory n); i (n_max_touch_points n);
    width; height; width; height;
    s (n_connection_type n); i (n_connection_rtt n);
    s (tenths_str (n_connection_downlink n));
    s (n_webgl_vendor n); s (n_webgl_renderer n);
    s (n_os n); s (lower (n_os n)); s (n_locale n); s (n_locale n);
    s battery_snippet;
    s (if contains "Mozilla/" ua then split_second "Mozilla/" ua else "5.0");
    s ua;
    s (n_webgl_vendor n); s (n_webgl_renderer n);
    s "chrome"; s "chrome";
    s ua; s ua;
    s "America/New_York";
    i (n_hardware_concurrency n); i (n_device_memory n);
    s "America/New_York";
    s (n_webgl_vendor n); s (n_webgl_renderer n);
    s "America/New_York";
    s (n_os n); s (n_type n); s (n_city n) ].

(** Replacement fields are evaluated left to right; the first one that
    raises ends the evaluation. *)
Fixpoint evaluate (hs : list (result string)) : result (list string) :=
  match hs with
  | [] => Ok []
  | h :: rest => v ← h; vs ← evaluate rest; mret (v :: vs)
  end.

Fixpoint interleave (k : nat) (values : list string) : list segment :=
  Lit k :: match values with
           | [] => []
           | v :: rest => Text v :: interleave (S k) rest
           end.

Definition generate_ultimate_stealth_script (p : profile) : result (list segment) :=
  values ← evaluate (holes (with_defaults p)); mret (interleave 0 values).


(** The [screen] dictionary, when the profile has one, has both sizes. *)
Definition screen_complete (p : profile) : Prop :=
  forall sc, screen p = Some sc -> is_Some (sc !! "width") /\ is_Some (sc !! "height").



(** Two profiles that differ in keys the synthesizer does not keep. *)
Definition london_firefox_profile : profile :=
  MkProfile None None (Some "firefox") None None None (Some (size 1280 720)) None (Some 125)
            None None None None (Some "Europe/London") None (Some (515074, -1278)) None
            None None None (Some 3) None.

End Synth.

(** ** Registration flow: [got_email] and its post-submission branches *)

Module Flow.
Import Py Rng.

Inductive RegFlow : Type :=
| waiting_for_email
| waiting_for_captcha
| waiting_for_otp
| learning_mode.

Definition FIRST_NAMES : list string :=
  ["John"; "Jane"; "Alex"; "Emma"; "Michael"; "Sarah"; "David"; "Lisa"].
Definition LAST_NAMES : list string :=
  ["Smith"; "Johnson"; "Williams"; "Brown"; "Jones"; "Garcia"; "Miller"; "Davis"].

(** [\s] and [str.strip] on the ASCII range. *)
Definition is_space (c : ascii) : bool :=
  let n := nat_of_ascii c in
  (Nat.leb 9 n && Nat.leb n 13) || (Nat.leb 28 n && Nat.leb n 32).

Fixpoint lstrip (s : string) : string :=
  match s with
  | String c s' => if is_space c then lstrip s' else s
  | EmptyString => EmptyString
  end.

Fixpoint rstrip (s : string) : string :=
  match s with
  | EmptyString => EmptyString
  | String c s' =>
      match rstrip s' with
      | EmptyString => if is_space c then EmptyString else String c EmptyString
      | r => String c r
      end
  end.

Definition strip (s : string) : string := rstrip (lstrip s).

(** A character of the class [[^@\s]]. *)
Definition plain (c : ascii) : bool :=
  negb (is_space c) && negb (Ascii.eqb c "@"%char).

Fixpoint all_plain (s : string) : bool :=
  match s with
  | EmptyString => true
  | String c s' => plain c && all_plain s'
  end.

(** [[^@\s]+\.[^@\s]+$]: plain characters with a dot that has at least
    one character on each side. *)
Fixpoint domain_ok (s : string) : bool :=
  match s with
  | String c ((String d rest) as s') =>
      plain c &&
      ((Ascii.eqb d "."%char && all_plain rest && negb (String.eqb rest "")) || domain_ok s')
  | _ => false
  end.

(** [[^@\s]+@] followed by the domain part. *)
Fixpoint local_then_domain (seen : bool) (s : string) : bool :=
  match s with
  | EmptyString => false
  | String c s' =>
      if Ascii.eqb c "@"%char then seen && domain_ok s'
      else plain c && local_then_domain true s'
  end.

(** [EMAIL_RE.match(email)] for [^[^@\s]+@[^@\s]+\.[^@\s]+$]. *)
Definition EMAIL_RE_match (email : string) : bool := local_then_domain false email.

(** The keys that [got_email] keeps in the FSM context.  A key set to
    [None] by [update_data] is present with no value. *)
Record flow_data : Type := FlowData {
  email : option string;
  full_name : option string;
  password : option string;
  retry_with_proxy : option bool;
  puzzle_retry_count : option Z;
  previous_email : option (option string);
  restart_reason : option (option string);
  original_full_name : option string;
  original_password : option string
}.

Definition no_data : flow_data :=
  FlowData None None None None None None None None None.

(** Messages answered to the user by the modelled branches. *)
Inductive notice : Type :=
| InvalidEmail
| ActiveSession
| RetryingWithProxy (email full_name password : string)
| Restarting (email full_name password : string)
| Starting (email full_name password : string)
| EmailAlreadyUsed (email : string)
| PhoneVerificationRequired
| SecurityError
| PuzzlePersists
| PuzzleFirstRetry
| ProxyConfigured (proxy : string)
| NoFreeProxy
| PuzzleSecondRetry
| NewProxyConfigured (proxy : string)
| EnterOtp.

#[export] Instance notice_eq_dec : EqDecision notice.
Proof. solve_decision. Defined.

(** The entry of [user_sessions] for the user. *)
Record session : Type := Session {
  sess_email : string;
  sess_full_name : string;
  sess_password : string
}.

(** The state [got_email] reads and writes: the FSM context, the global
    [PROXY_CONFIG] and [CHECK_PUZZLE], [user_sessions] for this user, the
    messages sent so far, and a count of how often [got_email] has
    re-entered itself. *)
Record world : Type := World {
  fsm_state : option RegFlow;
  data : flow_data;
  proxy_enabled : bool;
  proxy_server : string;
  check_puzzle : bool;
  user_session : option session;
  sent : list notice;
  restarts : nat
}.

(** What happens in the browser during one pass through [got_email]. *)
Inductive page_outcome : Type :=
| Stopped (clears_state disables_proxy : bool)
| Submitted (duplicate_email phone_required security_error puzzle_detected : bool)
            (free_proxy : option string).

(** Everything outside the program that one pass depends on. *)
Record attempt : Type := Attempt {
  access_ok : bool;
  name_draws : rng;
  token : string;
  outcome : page_outcome
}.

Definition answer (n : notice) (w : world) : world :=
  World (fsm_state w) (data w) (proxy_enabled w) (proxy_server w) (check_puzzle w)
        (user_session w) (sent w ++ [n]) (restarts w).

Definition set_data (d : flow_data) (w : world) : world :=
  World (fsm_state w) d (proxy_enabled w) (proxy_server w) (check_puzzle w)
        (user_session w) (sent w) (restarts w).

Definition set_state (s : RegFlow) (w : world) : world :=
  World (Some s) (data w) (proxy_enabled w) (proxy_server w) (check_puzzle w)
        (user_session w) (sent w) (restarts w).

(** [state.clear()]. *)
Definition clear (w : world) : world :=
  World None no_data (proxy_enabled w) (proxy_server w) (check_puzzle w)
        (user_session w) (sent w) (restarts w).

Definition set_proxy (enabled : bool) (server : string) (w : world) : world :=
  World (fsm_state w) (data w) enabled server (check_puzzle w)
        (user_session w) (sent w) (restarts w).

Definition set_session (s : option session) (w : world) : world :=
  World (fsm_state w) (data w) (proxy_enabled w) (proxy_server w) (check_puzzle w)
        s (sent w) (restarts w).

Definition cleanup_session (w : world) : world := set_session None w.

Definition restarted (w : world) : world :=
  World (fsm_state w) (data w) (proxy_enabled w) (proxy_server w) (check_puzzle w)
        (user_session w) (sent w) (S (restarts w)).

(** [random.choice(FIRST_NAMES)], [random.choice(LAST_NAMES)] and
    [secrets.token_urlsafe(12)]. *)
Definition fresh_credentials (a : attempt) : string * string :=
  let name := (first_name ← choice FIRST_NAMES "";
               last_name ← choice LAST_NAMES "";
               mret (first_name +:+ " " +:+ last_name)) (name_draws a) in
  (name.1, token a).

(** Truth value of an optional string: [None] and [""] are false. *)
Definition truthy (s : option string) : bool :=
  match s with
  | Some (String _ _) => true
  | _ => false
  end.

(** Lines 4276-4295: the name and password used by this pass. *)
Definition credentials (a : attempt) (current_data : flow_data) : string * string :=
  let is_retry_with_proxy := default false (retry_with_proxy current_data) in
  if is_retry_with_proxy then
    if truthy (full_name current_data) && truthy (password current_data)
    then (default "" (full_name current_data), default "" (password current_data))
    else fresh_credentials a
  else fresh_credentials a.

(** [state.update_data(email=..., full_name=..., password=...)]. *)
Definition store_credentials (e n p : string) (d : flow_data) : flow_data :=
  FlowData (Some e) (Some n) (Some p) (retry_with_proxy d) (puzzle_retry_count d)
           (previous_email d) (restart_reason d) (original_full_name d) (original_password d).

(** [state.update_data(previous_email=None, restart_reason=None)]. *)
Definition clear_restart_marks (d : flow_data) : flow_data :=
  FlowData (email d) (full_name d) (password d) (retry_with_proxy d) (puzzle_retry_count d)
           (Some None) (Some None) (original_full_name d) (original_password d).

(** Lines 5033-5038: what the duplicate-email branch saves. *)
Definition mark_duplicate (e n p : string) (d : flow_data) : flow_data :=
  FlowData (email d) (full_name d) (password d) (retry_with_proxy d) (puzzle_retry_count d)
           (Some (Some e)) (Some (Some "duplicate_email")) (Some n) (Some p).

(** Lines 5305-5308. *)
Definition mark_proxy_retry (count : Z) (d : flow_data) : flow_data :=
  FlowData (email d) (full_name d) (password d) (Some true) (Some count)
           (previous_email d) (restart_reason d) (original_full_name d) (original_password d).

(** Line 5349. *)
Definition set_retry_count (count : Z) (d : flow_data) : flow_data :=
  FlowData (email d) (full_name d) (password d) (retry_with_proxy d) (Some count)
           (previous_email d) (restart_reason d) (original_full_name d) (original_password d).

(** Lines 5360-5369: no branch returned, the flow waits for the code. *)
Definition proceed_to_otp (w : world) : world :=
  answer EnterOtp (set_state waiting_for_otp w).

(** One pass through the body of [got_email(message, state)], with [text]
    the text of the message.  The flag is [true] when the pass ends in the
    call [await got_email(message, state)] of the puzzle branches, which is
    the last thing such a pass does. *)
Definition got_email_pass (a : attempt) (text : string) (w : world) : world * bool :=
  if negb (access_ok a) then (clear w, false) else
  let e := strip text in
  if negb (EMAIL_RE_match e) then (answer InvalidEmail w, false) else
  if bool_decide (is_Some (user_session w)) then (answer ActiveSession w, false) else
  let current_data := data w in
  let is_retry_with_proxy := default false (retry_with_proxy current_data) in
  let '(n, p) := credentials a current_data in
  let is_restart :=
    bool_decide (is_Some (previous_email current_data)) ||
    bool_decide (is_Some (restart_reason current_data)) in
  let w := set_data (store_credentials e n p (data w)) w in
  let w :=
    if is_retry_with_proxy then answer (RetryingWithProxy e n p) w
    else if is_restart then
      answer (Restarting e n p) (set_data (clear_restart_marks (data w)) w)
    else answer (Starting e n p) w in
  match outcome a with
  | Stopped clears_state disables_proxy =>
      let w := if disables_proxy then set_proxy false (proxy_server w) w else w in
      let w := cleanup_session w in
      (if clears_state then clear w else w, false)
  | Submitted duplicate_email phone_required security_error puzzle_detected free_proxy =>
      let w := set_session (Some (Session e n p)) w in
      if duplicate_email then
        let w := answer (EmailAlreadyUsed e) w in
        let w := set_data (mark_duplicate e n p (data w)) w in
        (set_state waiting_for_email (cleanup_session w), false)
      else if negb (check_puzzle w) then (proceed_to_otp w, false)
      else if phone_required then
        (clear (cleanup_session (answer PhoneVerificationRequired w)), false)
      else if security_error then
        (clear (cleanup_session (answer SecurityError w)), false)
      else if negb puzzle_detected then (proceed_to_otp w, false)
      else
        let retry_count := default 0 (puzzle_retry_count (data w)) in
        if 2 <=? retry_count then
          let w := set_proxy false (proxy_server w) w in
          (clear (cleanup_session (answer PuzzlePersists w)), false)
        else if (retry_count =? 0) && negb (proxy_enabled w) then
          let w := answer PuzzleFirstRetry w in
          match free_proxy with
          | Some server =>
              let w := answer (ProxyConfigured server) (set_proxy true server w) in
              let w := cleanup_session w in
              let w := set_data (mark_proxy_retry (retry_count + 1) (data w)) w in
              (restarted w, true)
          | None =>
              (clear (cleanup_session (answer NoFreeProxy w)), false)
          end
        else if retry_count =? 1 then
          let w := answer PuzzleSecondRetry w in
          let w := match free_proxy with
                   | Some server =>
                       answer (NewProxyConfigured server)
                              (set_proxy (proxy_enabled w) server w)
                   | None => w
                   end in
          let w := cleanup_session w in
          let w := set_data (set_retry_count (retry_count + 1) (data w)) w in
          (restarted w, true)
        else (proceed_to_otp w, false)
  end.

(** [got_email]: passes until one ends without the recursive call.  Each
    pass consumes one element of [trace]; [None] when the trace ends while
    a pass is still due. *)
Fixpoint got_email (trace : list attempt) (text : string) (w : world) : option world :=
  match trace with
  | [] => None
  | a :: later =>
      let '(w', again) := got_email_pass a text w in
      if again then got_email later text w' else Some w'
  end.


(** A world at the start of a flow: [/start] has set the state, nothing
    is stored yet, the proxy is off. *)
Definition fresh_world : world :=
  World (Some waiting_for_email) no_data false "" true None [] 0.


(** A pass in which the page shows the duplicate-email warning. *)
Definition duplicate_pass (a : attempt) : bool :=
  access_ok a &&
  match outcome a with
  | Submitted true _ _ _ _ => true
  | _ => false
  end.

(** Scenario B as the specification words it: after a duplicate-email
    pass the flow waits for an email again, and the next pass uses the
    stored name and password. *)
Definition restart_reuses_credentials : Prop :=
  forall a1 text w1,
    duplicate_pass a1 = true -> EMAIL_RE_match (strip text) = true ->
    got_email [a1] text fresh_world = Some w1 ->
    fsm_state w1 = Some waiting_for_email
    /\ forall a2, Some (credentials a2 (data w1)).1 = full_name (data w1)
               /\ Some (credentials a2 (data w1)).2 = password (data w1).


(** Sample passes: the puzzle with a free proxy at hand, a clean page, the
    duplicate-email warning, and an early stop that leaves the context. *)
Definition sample_puzzle : attempt :=
  Attempt true [1; 3]%nat "tok1" (Submitted false false false true (Some "http://10.0.0.1:8080")).
Definition sample_clean : attempt :=
  Attempt true [5; 6]%nat "tok3" (Submitted false false false false None).
Definition sample_duplicate : attempt :=
  Attempt true [2; 4]%nat "tokd" (Submitted true false false false None).
Definition sample_stop : attempt :=
  Attempt true [1; 3]%nat "tok2" (Stopped false false).

End Flow.

(** ** Suggested address variation: [add_dots_to_email] *)

Module Dots.

(** The function only slices and joins, so its strings are kept as lists
    of characters here. *)
Definition chars (s : string) : list ascii := list_ascii_of_string s.

(** [email.split('@', 1)] under the guard ['@' in email]: the text before
    the first [c] and the text after it; [None] when [c] does not occur. *)
Fixpoint split_once (c : ascii) (s : list ascii) : option (list ascii * list ascii) :=
  match s with
  | [] => None
  | x :: rest =>
      if Ascii.eqb x c then Some ([], rest)
      else match split_once c rest with
           | Some (before, after) => Some (x :: before, after)
           | None => None
           end
  end.

(** [s.replace('.', '')]. *)
Definition remove_dots (s : list ascii) : list ascii :=
  filter (fun c => c ≠ "."%char) s.

Definition add_dots_to_email (email : list ascii) : list ascii :=
  match split_once "@" email with
  | None => email
  | Some (local_part, domain) =>
      if bool_decide ("."%char ∈ local_part) then
        let clean_part := remove_dots local_part in
        if (4 <=? length clean_part)%nat then
          let quarter := (length clean_part / 4)%nat in
          take quarter clean_part ++ chars "."
            ++ drop quarter (take (length clean_part - quarter) clean_part) ++ chars "."
            ++ drop (length clean_part - quarter) clean_part ++ chars "@" ++ domain
        else chars "new." ++ clean_part ++ chars "@" ++ domain
      else if (length local_part <? 3)%nat then
        local_part ++ chars ".new@" ++ domain
      else if (6 <=? length local_part)%nat then
        let third := (length local_part / 3)%nat in
        take third local_part ++ chars "."
          ++ drop third (take (2 * third) local_part) ++ chars "."
          ++ drop (2 * third) local_part ++ chars "@" ++ domain
      else if (4 <=? length local_part)%nat then
        let mid := (length local_part / 2)%nat in
        take mid local_part ++ chars "." ++ drop mid local_part ++ chars "@" ++ domain
      else
        take 1 local_part ++ chars "." ++ drop 1 local_part ++ chars "@" ++ domain
  end.

(** The branches in which the function places dots only: a dotted local
    part with at least four other characters, or an undotted one with at
    least three characters. *)
Definition dots_only (local_part : list ascii) : bool :=
  if bool_decide ("."%char ∈ local_part)
  then (4 <=? length (remove_dots local_part))%nat
  else (3 <=? length local_part)%nat.

End Dots.

(** ** Cookie headers: [format_cookie_header], [format_complete_cookie_header] *)

Module Cookies.
Import Py.

(** A cookie as the functions read it: two keys, read with [dict.get]. *)
Record cookie : Type := Cookie {
  name : option string;
  value : option string
}.

(** Truth value of [c.get(key)]: present and not empty. *)
Definition filled (o : option string) : bool :=
  match o with
  | Some (String _ _) => true
  | _ => false
  end.

(** [[f"{c['name']}={c['value']}" for c in cookies if c.get('name') and c.get('value')]]. *)
Fixpoint pairs (cookies : list cookie) : list string :=
  match cookies with
  | [] => []
  | c :: rest =>
      if filled (name c) && filled (value c)
      then (default "" (name c) +:+ "=" +:+ default "" (value c)) :: pairs rest
      else pairs rest
  end.

(** [sep.join(l)]. *)
Fixpoint join (sep : string) (l : list string) : string :=
  match l with
  | [] => ""
  | [x] => x
  | x :: rest => x +:+ sep +:+ join sep rest
  end.

Definition important_prefixes : list string :=
  ["session-token"; "at-main"; "x-main"; "csrf-token"; "session-id"; "ubid-main"].

(** The test in the loop: the lower-cased text before the first [=] starts
    with one of the prefixes. *)
Definition is_important (pair : string) : bool :=
  let cookie_name := lower (before "=" pair) in
  existsb (fun prefix => String.prefix prefix cookie_name) important_prefixes.

(** The [for pair in pairs] loop with its two accumulators. *)
Fixpoint sort_pairs (ps important_cookies other_cookies : list string)
    : list string * list string :=
  match ps with
  | [] => (important_cookies, other_cookies)
  | pr :: rest =>
      if is_important pr
      then sort_pairs rest (important_cookies ++ [pr]) other_cookies
      else sort_pairs rest important_cookies (other_cookies ++ [pr])
  end.

(** [all_cookies = important_cookies + other_cookies]. *)
Definition all_cookies (cookies : list cookie) : list string :=
  let '(important_cookies, other_cookies) := sort_pairs (pairs cookies) [] [] in
  important_cookies ++ other_cookies.

Definition format_complete_cookie_header (cookies : list cookie) : string :=
  match pairs cookies with
  | [] => "No cookies found"
  | _ => join "; " (all_cookies cookies)
  end.

Definition format_cookie_header (cookies : list cookie) : string :=
  match pairs cookies with
  | [] => "Cookie: "
  | ps => "Cookie: " +:+ join "; " ps
  end.

End Cookies.

(** ** Interaction log: [record_interaction] *)

Module InteractionLog.
Import Py.

Section Log.
(** The [element_info] dictionary that the caller passes in. *)
Variable element_info : Type.

Record interaction_data : Type := InteractionData {
  timestamp : string;
  kind : string;
  url : string;
  info : element_info
}.

(** The log file as [open] and [json.load] see it. *)
Inductive log_file : Type :=
| LogJson (interactions : list interaction_data)
| LogMalformed (text : string)
| LogUnreadable.

(** The [try] block that reads the log: a missing file and text that is not
    JSON give the empty list, any other error propagates. *)
Definition read_log (f : option log_file) : result (list interaction_data) :=
  match f with
  | None => Ok []
  | Some (LogMalformed _) => Ok []
  | Some LogUnreadable => Raise PermissionError
  | Some (LogJson interactions) => Ok interactions
  end.

(** [l[-n:]] for positive [n]. *)
Definition last_n {A} (n : nat) (l : list A) : list A := drop (length l - n) l.

(** [record_interaction(page, interaction_type, element_info)]: [now] is
    the reading of the clock, [page_url] the value of [page.url]; the
    result is the log file after the call. *)
Definition record_interaction (now page_url interaction_type : string) (i : element_info)
    (f : option log_file) : result (option log_file) :=
  let interaction_data := InteractionData now interaction_type page_url i in
  interactions ← read_log f;
  mret (Some (LogJson (last_n 100 (interactions ++ [interaction_data])))).

End Log.

Arguments InteractionData {element_info}.
Arguments LogJson {element_info}.
Arguments LogMalformed {element_info}.
Arguments LogUnreadable {element_info}.
Arguments timestamp {element_info}.
Arguments kind {element_info}.
Arguments url {element_info}.
Arguments info {element_info}.
Arguments read_log {element_info}.
Arguments record_interaction {element_info}.

End InteractionLog.

(** ** Learning from recorded clicks: [extract_learned_selectors] *)

Module Extract.
Import Py Learner Categorizer InteractionLog.

(** One element of [window.learningData]. *)
Record learning_event : Type := LearningEvent {
  ev_type : string;
  ev_selectors : option (list string);
  ev_interaction : interaction
}.

(** The [element_info] of a [learned_click] record. *)
Record click_info : Type := ClickInfo {
  ci_selector : string;
  ci_category : string;
  ci_element_text : string;
  ci_element_attributes : option attributes
}.

(** The learner, the interaction log file and the number of clock readings
    made so far. *)
Record state : Type := State {
  the_learner : learner;
  the_log : option (log_file click_info);
  ticks : nat
}.

Section Clocked.
(** [datetime.now().isoformat()] at its successive readings, and
    [page.url]. *)
Variable clock : nat -> string.
Variable page_url : string.

(** [selector_learner.add_selector]: one reading of the clock for the new
    entry, and one more inside the loop when the locator is known. *)
Definition add_selector_now (category sel ctx : string) (s : state) : state :=
  let t := ticks s in
  let known :=
    bool_decide (sel ∈ learned_of (learned_selectors (the_learner s)) category) in
  State (add_selector category sel ctx (clock t) (clock (S t)) (the_learner s))
        (the_log s)
        (if known then S (S t) else S t).

(** The [for selector in interaction['selectors'][:3]] loop.  The second
    component is the exception that ended it, if any. *)
Fixpoint learn_each (category context_info element_text : string)
    (element_attributes : option attributes) (sels : list string) (s : state)
    : state * option exn :=
  match sels with
  | [] => (s, None)
  | sel :: rest =>
      let s := add_selector_now category sel context_info s in
      let i := ClickInfo sel category element_text element_attributes in
      match record_interaction (clock (ticks s)) page_url "learned_click" i (the_log s) with
      | Ok f =>
          learn_each category context_info element_text element_attributes rest
            (State (the_learner s) f (S (ticks s)))
      | Raise e => (State (the_learner s) (the_log s) (S (ticks s)), Some e)
      end
  end.

(** An event that the loop acts on: a click with a non-empty list of
    selectors. *)
Definition is_click (ev : learning_event) : bool :=
  String.eqb (ev_type ev) "click" &&
  match ev_selectors ev with
  | Some (_ :: _) => true
  | _ => false
  end.

(** The [for interaction in learning_data] loop. *)
Fixpoint extract_loop (learning_context : string) (learning_data : list learning_event)
    (s : state) : state * option exn :=
  match learning_data with
  | [] => (s, None)
  | ev :: rest =>
      if is_click ev then
        let category := categorize_interaction learning_context (ev_interaction ev) in
        let element_text := default "" (text (ev_interaction ev)) in
        let context_info :=
          "Learned from " +:+ learning_context +:+ " - " +:+ element_text +:+ "[:50]" in
        match learn_each category context_info element_text (attrs (ev_interaction ev))
                (take 3 (default [] (ev_selectors ev))) s with
        | (s, None) => extract_loop learning_context rest s
        | (s, Some e) => (s, Some e)
        end
      else extract_loop learning_context rest s
  end.

(** [extract_learned_selectors(page, learning_context)]; [learning_data] is
    what [page.evaluate] gave, or the exception it raised. *)
Definition extract_learned_selectors (learning_context : string)
    (learning_data : result (list learning_event)) (s : state) : nat * state :=
  match learning_data with
  | Raise _ => (0%nat, s)
  | Ok events =>
      match extract_loop learning_context events s with
      | (s, None) => (length events, s)
      | (s, Some _) => (0%nat, s)
      end
  end.

End Clocked.

End Extract.

(** ** Resolve and click: [click_element_robust] *)

Module Click.
Import Learner Resolver.

Section Page.
Variable page : Type.
Variable wait_for_selector : page -> string -> Z -> outcome * page.
(** The [try] block (mouse movement, [page.click], delay): [true] when it
    ran through, [false] when it raised. *)
Variable simulated_click : page -> string -> bool * page.
(** The fallback [page.evaluate] of a script-level click. *)
Variable script_click : page -> string -> bool * page.

(** What a call did, besides its boolean result. *)
Record report : Type := Report {
  clicked : bool;
  page_after : page;
  probed : list string;
  target : option string;
  script_used : bool
}.

(** Truth value of [learning_category] and of [working_selector]. *)
Definition given (o : option string) : bool :=
  match o with
  | Some (String _ _) => true
  | _ => false
  end.

Definition click_element_robust (st : gmap string (list entry)) (pg : page)
    (selectors : list string) (timeout : Z) (learning_category : option string) : report :=
  let combined_selectors :=
    if given learning_category
    then get_combined_selectors st (default "" learning_category) selectors
    else selectors in
  let '(working_selector, pg, log) :=
    find_element_robust page wait_for_selector pg combined_selectors timeout in
  if negb (given working_selector) then Report false pg log None false
  else
    let s := default "" working_selector in
    let '(ok, pg) := simulated_click pg s in
    if ok then Report true pg log (Some s) false
    else
      let '(ok, pg) := script_click pg s in
      Report ok pg log (Some s) true.

End Page.

End Click.

(** ** Access windows and the user cache *)

Module Access.
Import Py.

(** One entry of [allowed_users] or [admin_users]; times are in
    microseconds. *)
Record grant : Type := Grant {
  username : string;
  granted_at : Z;
  expires_at : Z;
  duration : string
}.

(** The two dictionaries, keyed by user id. *)
Record registry : Type := Registry {
  allowed_users : gmap Z grant;
  admin_users : gmap Z grant
}.

Definition day : Z := 86400 * 1000000.

(** The [duration_map] of [add_user_access], looked up with the lower-cased
    duration. *)
Definition duration_map (d : string) : option Z :=
  let d := lower d in
  if decide (d = "day") then Some day
  else if decide (d = "1day") then Some day
  else if decide (d = "week") then Some (7 * day)
  else if decide (d = "1week") then Some (7 * day)
  else if decide (d = "month") then Some (30 * day)
  else if decide (d = "1month") then Some (30 * day)
  else None.

Section Config.
Variable ADMIN_USER_ID : Z.

(** [is_admin_user(user_id)], with [now] the reading of the clock. *)
Definition is_admin_user (now : Z) (user_id : Z) (r : registry) : bool * registry :=
  if decide (user_id = ADMIN_USER_ID) then (true, r)
  else match admin_users r !! user_id with
       | None => (false, r)
       | Some user_data =>
           if expires_at user_data <? now
           then (false, Registry (allowed_users r) (delete user_id (admin_users r)))
           else (true, r)
       end.

(** [is_user_allowed(user_id)]: [now_admin] is the reading made inside
    [is_admin_user], [now] the one made afterwards. *)
Definition is_user_allowed (now_admin now : Z) (user_id : Z) (r : registry)
    : bool * registry :=
  if decide (user_id = ADMIN_USER_ID) then (true, r)
  else
    let '(admin, r) := is_admin_user now_admin user_id r in
    if admin then (true, r)
    else match allowed_users r !! user_id with
         | None => (false, r)
         | Some user_data =>
             if expires_at user_data <? now
             then (false, Registry (delete user_id (allowed_users r)) (admin_users r))
             else (true, r)
         end.

End Config.

(** What [add_user_access] answers. *)
Inductive reply : Type :=
| InvalidDuration (d : string)
| AccessGranted (user user_duration : string) (id expires : Z).

(** [add_user_access(user_id, username, duration)]: [now] is the reading
    that the expiry is computed from, [now_granted] the later one stored
    as [granted_at]. *)
Definition add_user_access (now now_granted : Z) (user_id : Z) (user d : string)
    (r : registry) : reply * registry :=
  match duration_map d with
  | None => (InvalidDuration d, r)
  | Some span =>
      let expires := now + span in
      (AccessGranted user d user_id expires,
       Registry (<[user_id := Grant user now_granted expires d]> (allowed_users r))
                (admin_users r))
  end.



End Access.

(** ** Measures and invariants used in the further properties *)

Module Measures.
Import Py Learner Profile.

(** The sum of the success counters of a category. *)
Definition total_count (st : gmap string (list entry)) (category : string) : Z :=
  foldr Z.add 0 (success_count <$> default [] (st !! category)).

(** The platform string that goes with an operating system. *)
Definition platform_of (os_name : string) : option string :=
  if decide (os_name = "Windows") then Some "Win32"
  else if decide (os_name = "macOS") then Some "MacIntel"
  else if decide (os_name = "Linux") then Some "Linux x86_64"
  else None.

(** The hardware ranges of the three desktop generators. *)
Definition hardware_ok (os_name : string) (scale cores memory : Z) : bool :=
  if decide (os_name = "Windows") then
    bool_decide (scale ∈ [100; 125; 150]) && (4 <=? cores) && (cores <=? 16)
    && bool_decide (memory ∈ [4; 8; 16; 32])
  else if decide (os_name = "macOS") then
    bool_decide (scale ∈ [100; 200]) && (4 <=? cores) && (cores <=? 12)
    && bool_decide (memory ∈ [8; 16; 32])
  else if decide (os_name = "Linux") then
    bool_decide (scale ∈ [100; 125]) && (2 <=? cores) && (cores <=? 16)
    && bool_decide (memory ∈ [4; 8; 16])
  else false.

(** The start of the user agent that goes with an operating system. *)
Definition ua_prefix (os_name : string) : string :=
  if decide (os_name = "Windows") then "Mozilla/5.0 (Windows NT "
  else if decide (os_name = "macOS") then "Mozilla/5.0 (Macintosh; Intel Mac OS X "
  else "Mozilla/5.0 (X11; Linux x86_64".

(** The product token that the user agent of a browser carries. *)
Definition ua_token (browser_name : string) : string :=
  if decide (browser_name = "firefox") then "Gecko/20100101 Firefox/"
  else if decide (browser_name = "safari") then " (KHTML, like Gecko) Version/"
  else if decide (browser_name = "edge") then " Safari/537.36 Edg/"
  else "AppleWebKit/537.36 (KHTML, like Gecko) Chrome/".

(** A desktop profile as the generators build it: desktop type, no touch
    points, the platform and the user agent of its OS and browser, and
    hardware in the ranges of its OS. *)
Definition desktop_ok (p : profile) : bool :=
  match type p, os p, browser p, user_agent p, platform p, max_touch_points p,
        device_scale_factor p, hardware_concurrency p, device_memory p with
  | Some t, Some o, Some b, Some ua, Some pl, Some touch, Some scale, Some cores, Some memory =>
      bool_decide (t = "desktop") && bool_decide (platform_of o = Some pl)
      && (touch =? 0) && hardware_ok o scale cores memory
      && String.prefix (ua_prefix o) ua && contains (ua_token b) ua
  | _, _, _, _, _, _, _, _, _ => false
  end.

(** The locale that goes with a time zone in the location table. *)
Definition locale_of (tz : string) : option string :=
  if bool_decide (tz ∈ ["America/New_York"; "America/Los_Angeles"; "America/Chicago";
                       "America/Phoenix"; "America/Denver"]) then Some "en-US"
  else if bool_decide (tz ∈ ["America/Toronto"; "America/Vancouver"]) then Some "en-CA"
  else if decide (tz = "Europe/London") then Some "en-GB"
  else if bool_decide (tz ∈ ["Australia/Sydney"; "Australia/Melbourne"]) then Some "en-AU"
  else None.

(** The location and network keys added by
    [generate_ultimate_stealth_profile]. *)
Definition surroundings_ok (p : profile) : bool :=
  match timezone p, locale p, city p, geolocation p,
        connection_type p, connection_rtt p, connection_downlink p, plugins p with
  | Some tz, Some lc, Some _, Some (lat, lon), Some ct, Some rtt, Some down, Some npl =>
      bool_decide (locale_of tz = Some lc)
      && (-900000 <=? lat) && (lat <=? 900000) && (-1800000 <=? lon) && (lon <=? 1800000)
      && bool_decide (ct ∈ ["4g"; "wifi"; "ethernet"])
      && (20 <=? rtt) && (rtt <=? 150) && (10 <=? down) && (down <=? 500)
      && (2 <=? npl) && (npl <=? 5)
  | _, _, _, _, _, _, _, _ => false
  end.

End Measures.

(** * Properties *)

(** ** Selector learning store *)

Module LearnerProps.
Import Py Learner.

Lemma bump_existing_absent sel now (l : list entry) :
  filter (fun e => selector e = sel) l = [] → bump_existing sel now l = None.
Proof.
  induction l as [|e l IH]; simpl; [done|].
  rewrite filter_cons. destruct (decide (selector e = sel)); [done|].
  intros Hf. by rewrite (IH Hf).
Qed.

Lemma bump_existing_last sel now (l : list entry) (e : entry) :
  filter (fun e => selector e = sel) l = [] → selector e = sel →
  bump_existing sel now (l ++ [e]) =
    Some (l ++ [Entry (selector e) (context e) (learned_at e) (success_count e + 1) (Some now)]).
Proof.
  intros Hl He. induction l as [|x l IH]; simpl.
  - by rewrite decide_True.
  - rewrite filter_cons in Hl.
    destruct (decide (selector x = sel)); [done|]. by rewrite (IH Hl).
Qed.

Lemma entries_for_insert (st : store) category sel (l : list entry) :
  entries_for (<[category := l]> st) category sel = filter (fun e => selector e = sel) l.
Proof. unfold entries_for. by rewrite lookup_insert_eq. Qed.

(** One record of a pair that the category does not have yet. *)
Lemma add_selector_fresh (l : learner) category sel ctx t1 t2 :
  entries_for (learned_selectors l) category sel = [] →
  learned_selectors (add_selector category sel ctx t1 t2 l) !! category =
    Some (default [] (learned_selectors l !! category) ++ [Entry sel ctx t1 1 None]).
Proof.
  unfold entries_for, add_selector. intros H. simpl.
  destruct (learned_selectors l !! category) as [old|] eqn:Hc; simpl in *.
  - rewrite Hc. simpl. rewrite (bump_existing_absent _ _ _ H).
    by rewrite lookup_insert_eq.
  - rewrite lookup_insert_eq. simpl. by rewrite lookup_insert_eq.
Qed.

(** One record of a pair whose entry is the last of the category. *)
Lemma add_selector_again (l : learner) category sel ctx t1 t2 (old : list entry) (e : entry) :
  learned_selectors l !! category = Some (old ++ [e]) →
  filter (fun e => selector e = sel) old = [] → selector e = sel →
  learned_selectors (add_selector category sel ctx t1 t2 l) !! category =
    Some (old ++ [Entry sel (context e) (learned_at e) (success_count e + 1) (Some t2)]).
Proof.
  intros Hc Hold He. unfold add_selector. simpl. rewrite Hc. simpl. rewrite Hc. simpl.
  rewrite (bump_existing_last _ _ _ _ Hold He), lookup_insert_eq. by rewrite He.
Qed.

Lemma add_selector_persisted (l : learner) category sel ctx t1 t2 :
  persisted (add_selector category sel ctx t1 t2 l).
Proof. unfold persisted, add_selector, save_learned_selectors. simpl. by rewrite lookup_insert_eq. Qed.

(** C3 (as amended): for every store in which the pair (category, locator)
    is not recorded yet, recording the pair twice leaves exactly one entry
    for it, appended by the first record and bumped by the second: its
    counter is 2, its last-success time is that of the second record, the
    older entries of the category are untouched, and the file holds the
    store after each of the two records. *)
Theorem add_selector_twice_on_new_pair (l : learner) (category sel ctx1 ctx2 : string)
    (t1 t2 t3 t4 : string) :
  entries_for (learned_selectors l) category sel = [] →
  let l1 := add_selector category sel ctx1 t1 t2 l in
  let l2 := add_selector category sel ctx2 t3 t4 l1 in
  recorded_twice l category sel ctx1 ctx2 t1 t2 t3 t4
  ∧ learned_selectors l1 !! category =
      Some (default [] (learned_selectors l !! category) ++ [Entry sel ctx1 t1 1 None])
  ∧ learned_selectors l2 !! category =
      Some (default [] (learned_selectors l !! category) ++ [Entry sel ctx1 t1 2 (Some t4)])
  ∧ entries_for (learned_selectors l2) category sel = [Entry sel ctx1 t1 2 (Some t4)].
Proof.
  intros Hnew l1 l2.
  set (old := default [] (learned_selectors l !! category)).
  assert (H1 : learned_selectors l1 !! category = Some (old ++ [Entry sel ctx1 t1 1 None]))
    by exact (add_selector_fresh l category sel ctx1 t1 t2 Hnew).
  assert (H2 : learned_selectors l2 !! category = Some (old ++ [Entry sel ctx1 t1 2 (Some t4)]))
    by exact (add_selector_again l1 category sel ctx2 t3 t4 _ _ H1 Hnew eq_refl).
  assert (Hfor : entries_for (learned_selectors l2) category sel = [Entry sel ctx1 t1 2 (Some t4)]).
  { unfold entries_for in *. rewrite H2. simpl. fold old in Hnew.
    rewrite filter_app, Hnew. simpl.
    rewrite filter_cons. simpl. by rewrite decide_True. }
  split_and!; try done.
  unfold recorded_twice. fold l1 l2. split_and!.
  - eexists. split; [exact Hfor|done].
  - apply add_selector_persisted.
  - apply add_selector_persisted.
Qed.

Lemma add_selector_twice_on_new_pair_witness :
  entries_for (learned_selectors (Learner default_store ∅)) "signin_selectors" "#signin" = []
  ∧ recorded_twice (Learner default_store ∅) "signin_selectors" "#signin" "a" "b"
      "t1" "t2" "t3" "t4".
Proof.
  split; [reflexivity|].
  apply (add_selector_twice_on_new_pair (Learner default_store ∅)
           "signin_selectors" "#signin" "a" "b" "t1" "t2" "t3" "t4").
  reflexivity.
Defined.

(** C3 fails as stated: on a store that has the pair with counter 1, two
    more records leave the counter at 3. *)
Lemma recorded_twice_fails_on_known_pair :
  entries_for
    (learned_selectors
       (add_selector "signin_selectors" "#signin" "b" "t3" "t4"
          (add_selector "signin_selectors" "#signin" "a" "t1" "t2" seen_once)))
    "signin_selectors" "#signin"
  = [Entry "#signin" "" "2024-01-01T00:00:00" 3 (Some "t4")]
  ∧ ¬ recorded_twice seen_once "signin_selectors" "#signin" "a" "b" "t1" "t2" "t3" "t4".
Proof.
  assert (H : entries_for
    (learned_selectors
       (add_selector "signin_selectors" "#signin" "b" "t3" "t4"
          (add_selector "signin_selectors" "#signin" "a" "t1" "t2" seen_once)))
    "signin_selectors" "#signin"
    = [Entry "#signin" "" "2024-01-01T00:00:00" 3 (Some "t4")]) by (vm_compute; reflexivity).
  split; [exact H|].
  intros [[e [He Hc]] _]. cbv zeta in He. rewrite H in He.
  injection He as <-. simpl in Hc. discriminate Hc.
Qed.

(** *** Merging learned and default locators *)

Lemma merged_prefix (st : store) category (base : list string) :
  take (length (learned_of st category)) (get_combined_selectors st category base)
  = learned_of st category.
Proof. unfold get_combined_selectors. by rewrite take_app_length. Qed.

Lemma merged_covers_base (st : store) category (base : list string) (x : string) :
  x ∈ base → x ∈ get_combined_selectors st category base.
Proof.
  intros Hx. unfold get_combined_selectors. apply elem_of_app.
  destruct (decide (x ∈ learned_of st category)); [by left|right].
  by apply list_elem_of_filter.
Qed.

Lemma merged_order (st : store) category (base : list string) (i j : nat) (x y : string) :
  get_combined_selectors st category base !! i = Some x →
  get_combined_selectors st category base !! j = Some y →
  x ∈ learned_of st category → y ∉ learned_of st category → (i < j)%nat.
Proof.
  unfold get_combined_selectors. set (learned := learned_of st category).
  intros Hi Hj Hx Hy.
  apply lookup_app_Some in Hi as [Hi|[_ Hi]].
  - apply lookup_lt_Some in Hi.
    apply lookup_app_Some in Hj as [Hj|[Hj _]]; [|lia].
    exfalso. apply Hy. by eapply list_elem_of_lookup_2.
  - apply list_elem_of_lookup_2, list_elem_of_filter in Hi as [Hi _]. done.
Qed.

Lemma merged_learned_first (st : store) category (base : list string) :
  learned_first st category base.
Proof.
  unfold learned_first. split_and!.
  - apply merged_prefix.
  - apply merged_covers_base.
  - apply merged_order.
Qed.

(** C4 (as amended): for every category, every store whose learned list
    for the category has no repeated locator and every base list without
    repeated locators, the merged list starts with the learned locators in
    store order, every default that is not learned comes after all of
    them, every default is kept, and no locator occurs twice: a locator of
    both lists stands once, at its learned position.  The order and
    coverage parts hold for all inputs. *)
Theorem get_combined_selectors_merged (st : store) (category : string) (base : list string) :
  NoDup (learned_of st category) → NoDup base →
  merged_as_specified st category base.
Proof.
  intros Hl Hb. split; [apply merged_learned_first|].
  unfold get_combined_selectors. apply NoDup_app. split_and!.
  - exact Hl.
  - intros x Hx Hf. by apply list_elem_of_filter in Hf as [Hf _].
  - by apply NoDup_filter.
Qed.

Lemma get_combined_selectors_merged_witness :
  NoDup (learned_of seen_once.(learned_selectors) "signin_selectors")
  ∧ NoDup ["#signin"; "#other"]
  ∧ merged_as_specified seen_once.(learned_selectors) "signin_selectors" ["#signin"; "#other"].
Proof.
  assert (H1 : NoDup (learned_of seen_once.(learned_selectors) "signin_selectors")).
  { change (NoDup ["#signin"]). apply NoDup_singleton. }
  assert (H2 : NoDup ["#signin"; "#other"]).
  { apply NoDup_cons. split; [|apply NoDup_singleton].
    intros H. apply list_elem_of_singleton in H. discriminate H. }
  split_and!; [exact H1|exact H2|].
  apply (get_combined_selectors_merged seen_once.(learned_selectors) "signin_selectors"
           ["#signin"; "#other"] H1 H2).
Defined.

(** C4 fails as stated: a base list that repeats a default comes out with
    the repetition. *)
Lemma merged_keeps_repeated_defaults :
  get_combined_selectors ∅ "signin_selectors" ["#a"; "#a"] = ["#a"; "#a"]
  ∧ ¬ merged_as_specified ∅ "signin_selectors" ["#a"; "#a"].
Proof.
  assert (H : get_combined_selectors ∅ "signin_selectors" ["#a"; "#a"] = ["#a"; "#a"])
    by (vm_compute; reflexivity).
  split; [exact H|].
  intros [_ Hn]. rewrite H in Hn.
  apply NoDup_cons in Hn as [Hn _]. apply Hn. by left.
Qed.

(** [add_selector] never creates a second entry for a locator. *)
Lemma bump_existing_selectors sel now (l r : list entry) :
  bump_existing sel now l = Some r → selector <$> r = selector <$> l.
Proof.
  revert r. induction l as [|e l IH]; intros r; simpl; [done|].
  destruct (decide (selector e = sel)).
  - by intros [= <-].
  - destruct (bump_existing sel now l) as [r'|]; [|done].
    intros [= <-]. rewrite !fmap_cons. f_equal. by apply IH.
Qed.

Lemma bump_existing_found sel now (l : list entry) :
  bump_existing sel now l = None → sel ∉ selector <$> l.
Proof.
  induction l as [|e l IH]; simpl; [intros _; apply not_elem_of_nil|].
  destruct (decide (selector e = sel)); [done|].
  destruct (bump_existing sel now l); [done|].
  intros _ H. apply elem_of_cons in H as [H|H]; [by symmetry in H|by apply IH].
Qed.

Lemma add_selector_keeps_NoDup (l : learner) category sel ctx t1 t2 (c : string) :
  NoDup (learned_of (learned_selectors l) c) →
  NoDup (learned_of (learned_selectors (add_selector category sel ctx t1 t2 l)) c).
Proof.
  unfold learned_of, add_selector. simpl. intros Hn.
  set (st := match learned_selectors l !! category with
             | Some _ => learned_selectors l
             | None => <[category:=[]]> (learned_selectors l)
             end).
  assert (Hst : default [] (st !! category) = default [] (learned_selectors l !! category)).
  { unfold st. destruct (learned_selectors l !! category) eqn:E; [by rewrite E|].
    by rewrite lookup_insert_eq. }
  destruct (decide (category = c)) as [->|Hne].
  - rewrite lookup_insert_eq. simpl. rewrite Hst.
    destruct (bump_existing sel t2 (default [] (learned_selectors l !! c))) as [r|] eqn:Hb.
    + by rewrite (bump_existing_selectors _ _ _ _ Hb).
    + rewrite fmap_app. simpl. apply NoDup_app. split_and!; [done| |apply NoDup_singleton].
      intros x Hx Hx'. apply list_elem_of_singleton in Hx' as ->.
      by apply (bump_existing_found _ _ _ Hb).
  - rewrite lookup_insert_ne by done. unfold st.
    destruct (learned_selectors l !! category); [done|].
    by rewrite lookup_insert_ne.
Qed.

(** *** Loading the store *)



End LearnerProps.

(** ** Selector resolver *)

Module ResolverProps.
Import Resolver.

Section Probe.
Variable page : Type.
Variable wait_for_selector : page -> string -> Z -> outcome * page.

Abbreviation find := (find_element_robust page wait_for_selector).
Abbreviation fails := (all_fail page wait_for_selector).

Lemma find_exhausted (l : list string) (timeout : Z) (pg pg1 : page) :
  fails pg l timeout = Some pg1 → find pg l timeout = (None, pg1, l).
Proof.
  revert pg. induction l as [|s l IH]; intros pg; simpl.
  - by intros [= ->].
  - destruct (wait_for_selector pg s timeout) as [[] pg']; [done| |];
      intros H; by rewrite (IH _ H).
Qed.

Lemma find_first_success (pre post : list string) (s : string) (timeout : Z) (pg pg0 : page) :
  fails pg pre timeout = Some pg0 →
  (wait_for_selector pg0 s timeout).1 = Found →
  find pg (pre ++ s :: post) timeout
  = (Some s, (wait_for_selector pg0 s timeout).2, pre ++ [s]).
Proof.
  revert pg. induction pre as [|x pre IH]; intros pg; simpl.
  - intros [= ->] Hs. destruct (wait_for_selector pg0 s timeout) as [o pg']; simpl in *.
    by subst o.
  - destruct (wait_for_selector pg x timeout) as [[] pg']; [done| |];
      intros H Hs; by rewrite (IH _ H Hs).
Qed.

Lemma find_result (l : list string) (timeout : Z) (pg : page) :
  match find pg l timeout with
  | (Some s, pg', probed) =>
      ∃ pre post pg0, l = pre ++ s :: post ∧ fails pg pre timeout = Some pg0
        ∧ wait_for_selector pg0 s timeout = (Found, pg') ∧ probed = pre ++ [s]
  | (None, pg', probed) => fails pg l timeout = Some pg' ∧ probed = l
  end.
Proof.
  revert pg. induction l as [|x l IH]; intros pg; simpl; [done|].
  destruct (wait_for_selector pg x timeout) as [o pg1] eqn:Hx.
  destruct o.
  - exists [], l, pg. by rewrite Hx.
  - specialize (IH pg1). destruct (find pg1 l timeout) as [[[s|] pg2] probed].
    + destruct IH as (pre & post & pg0 & -> & Hf & Hw & ->).
      exists (x :: pre), post, pg0. simpl. by rewrite Hx.
    + by destruct IH as [-> ->].
  - specialize (IH pg1). destruct (find pg1 l timeout) as [[[s|] pg2] probed].
    + destruct IH as (pre & post & pg0 & -> & Hf & Hw & ->).
      exists (x :: pre), post, pg0. simpl. by rewrite Hx.
    + by destruct IH as [-> ->].
Qed.

(** C5: for every candidate list the resolver probes the candidates in
    list order and stops at the first one whose probe succeeds: when the
    candidates before [s] all fail (by timeout or by any other error) and
    the probe of [s] succeeds, [s] is returned and the probed selectors
    are exactly those up to [s], none after it; when every candidate
    fails, the result is [None] after probing the whole list; and every
    run is of one of these two shapes. *)
Theorem find_element_robust_in_order (timeout : Z) (pg : page) :
  (∀ pre s post pg0,
     all_fail page wait_for_selector pg pre timeout = Some pg0 →
     (wait_for_selector pg0 s timeout).1 = Found →
     find_element_robust page wait_for_selector pg (pre ++ s :: post) timeout
     = (Some s, (wait_for_selector pg0 s timeout).2, pre ++ [s]))
  ∧ (∀ l pg1,
       all_fail page wait_for_selector pg l timeout = Some pg1 →
       find_element_robust page wait_for_selector pg l timeout = (None, pg1, l))
  ∧ (∀ l, match find_element_robust page wait_for_selector pg l timeout with
          | (Some s, pg', probed) =>
              ∃ pre post pg0,
                l = pre ++ s :: post
                ∧ all_fail page wait_for_selector pg pre timeout = Some pg0
                ∧ wait_for_selector pg0 s timeout = (Found, pg')
                ∧ probed = pre ++ [s]
          | (None, pg', probed) =>
              all_fail page wait_for_selector pg l timeout = Some pg' ∧ probed = l
          end).
Proof.
  split_and!.
  - intros pre s post pg0. apply find_first_success.
  - intros l pg1. apply find_exhausted.
  - intros l. apply find_result.
Qed.

End Probe.

(** On a static document where only the third candidate matches, the
    third candidate is returned and the fourth is never probed. *)
Lemma find_element_robust_in_order_witness :
  find_element_robust unit (static_probe (String.eqb "#c")) tt ["#a"; "#b"; "#c"; "#d"] 5000
  = (Some "#c", tt, ["#a"; "#b"; "#c"]).
Proof.
  exact (proj1 (find_element_robust_in_order unit (static_probe (String.eqb "#c")) 5000 tt)
           ["#a"; "#b"] "#c" ["#d"] tt eq_refl eq_refl).
Defined.

End ResolverProps.

(** ** Interaction categorizer *)

Module CategorizerProps.
Import Py Categorizer.

Lemma any_in_cons (w : string) (ws : list string) (t : string) :
  any_in (w :: ws) t = contains w t || any_in ws t.
Proof. reflexivity. Qed.

(** C10: for every interaction whose context is not [signin] and whose
    lower-cased text contains [continue], the categorizer returns
    [create_account_selectors]; and whenever it returns
    [continue_selectors], the context is not [signin] and the lower-cased
    text contains [next] or [proceed] and none of [continue], [verify],
    [create], [submit]. *)
Theorem categorize_interaction_continue (context : string) (i : interaction) :
  let t := lower (default "" (text i)) in
  (context ≠ "signin" → contains "continue" t = true →
   categorize_interaction context i = "create_account_selectors")
  ∧ (categorize_interaction context i = "continue_selectors" →
     context ≠ "signin"
     ∧ (contains "next" t = true ∨ contains "proceed" t = true)
     ∧ contains "continue" t = false ∧ contains "verify" t = false
     ∧ contains "create" t = false ∧ contains "submit" t = false).
Proof.
  intros t. unfold categorize_interaction. fold t.
  rewrite !any_in_cons. change (any_in [] t) with false.
  destruct (decide (context = "signin")) as [Hc|Hc].
  - split; [done|discriminate].
  - split.
    + intros _ ->. reflexivity.
    + destruct (contains "continue" t), (contains "verify" t), (contains "create" t),
        (contains "submit" t); simpl; try discriminate.
      destruct (contains "next" t), (contains "proceed" t); simpl; try (intros _; tauto).
      destruct (bool_decide _); discriminate.
Qed.

Lemma categorize_interaction_continue_witness :
  "create" ≠ "signin"
  ∧ contains "continue" (lower "Continue to checkout") = true
  ∧ categorize_interaction "create" (Interaction (Some "Continue to checkout") None)
    = "create_account_selectors".
Proof.
  assert (H1 : "create" ≠ "signin") by discriminate.
  assert (H2 : contains "continue" (lower "Continue to checkout") = true) by reflexivity.
  split_and!; [exact H1|exact H2|].
  exact (proj1 (categorize_interaction_continue "create"
                  (Interaction (Some "Continue to checkout") None)) H1 H2).
Defined.

End CategorizerProps.

(** ** Device profiles *)

Module ProfileProps.
Import Py Rng Profile.

Lemma always_ret {A} (P : A -> Prop) (a : A) : P a → always P (mret a).
Proof. intros H s. exact H. Qed.

Lemma always_bind {A B} (P : A -> Prop) (Q : B -> Prop) (g : gen A) (f : A -> gen B) :
  always P g → (∀ a, P a → always Q (f a)) → always Q (g ≫= f).
Proof.
  intros Hg Hf s. unfold mbind, gen_bind.
  specialize (Hg s). destruct (g s) as [a s']. exact (Hf a Hg s').
Qed.

Lemma always_trivial {A} (g : gen A) : always (fun _ => True) g.
Proof. intros s. exact I. Qed.

Lemma always_choice {A} (l : list A) (d : A) : l ≠ [] → always (fun x => x ∈ l) (choice l d).
Proof.
  intros Hl s. unfold choice, mbind, gen_bind, mret, gen_ret.
  destruct (draw s) as [n s']. simpl.
  apply list_elem_of_In, nth_In, Nat.mod_upper_bound.
  destruct l; [done|simpl; lia].
Qed.

Lemma pick_weighted_in {A} (r : Z) (l : list (A * Z)) (d : A) :
  pick_weighted r l d ∈ d :: l.*1.
Proof.
  revert r. induction l as [|[x w] l IH]; intros r; simpl; [by left|].
  destruct (r <? w); [right; by left|].
  specialize (IH (r - w)). apply elem_of_cons in IH as [->|IH]; [by left|by do 2 right].
Qed.

Lemma always_choices {A} (l : list (A * Z)) (d : A) :
  always (fun x => x ∈ d :: l.*1) (choices l d).
Proof.
  intros s. unfold choices, mbind, gen_bind, mret, gen_ret.
  destruct (draw s) as [n s']. simpl. apply pick_weighted_in.
Qed.

(** Steps through one draw whose value does not matter. *)
Ltac any_draw :=
  eapply always_bind; [apply always_trivial | intros ? _; cbn beta].

(** Splits a membership in a literal list into its cases. *)
Ltac cases_of H :=
  repeat (apply elem_of_cons in H as [->|H]); try (by apply elem_of_nil in H).

(** Steps through a [choice] and considers each element of its list. *)
Ltac pick_each :=
  eapply always_bind;
  [apply always_choice; discriminate
  | let H := fresh "Hin" in intros ? H; cbn beta; cases_of H].

Ltac pick_branch :=
  repeat first [rewrite decide_True by reflexivity | rewrite decide_False by discriminate].

Lemma chrome_version_any (P : string -> Prop) :
  (∀ v, P v) → always P generate_random_chrome_version.
Proof. intros H s. apply H. Qed.

Lemma consistent_desktop os_name b ua v r vp sc scale cores memory pl :
  combination_ok os_name b = true → webgl_family_ok b v r = true → viewport_fits vp sc = true →
  consistent (desktop os_name b ua v r vp sc scale cores memory pl) = true.
Proof. intros H1 H2 H3. unfold consistent, desktop. simpl. by rewrite H1, H2, H3. Qed.

Lemma windows_profile_consistent : always (fun p => consistent p = true) generate_windows_profile.
Proof.
  unfold generate_windows_profile. any_draw.
  eapply always_bind; [apply always_choices|]. intros b Hb. simpl in Hb.
  eapply (always_bind (fun t => webgl_family_ok b t.1.2 t.2 = true)).
  - cases_of Hb; pick_branch.
    + any_draw. pick_each; by apply always_ret.
    + any_draw. pick_each; by apply always_ret.
    + any_draw. pick_each; by apply always_ret.
    + any_draw. any_draw. any_draw. pick_each; by apply always_ret.
  - intros [[ua v] r] Hq. simpl in Hq.
    pick_each; any_draw; any_draw; any_draw; apply always_ret;
      (apply consistent_desktop; [|exact Hq|by vm_compute]);
      cases_of Hb; by vm_compute.
Qed.

Lemma macos_profile_consistent : always (fun p => consistent p = true) generate_macos_profile.
Proof.
  unfold generate_macos_profile. any_draw.
  eapply always_bind; [apply always_choices|]. intros b Hb. simpl in Hb.
  eapply (always_bind (fun t => webgl_family_ok b t.1.2 t.2 = true)).
  - cases_of Hb; pick_branch.
    + do 5 any_draw. pick_each; by apply always_ret.
    + do 5 any_draw. pick_each; by apply always_ret.
    + any_draw. pick_each; by apply always_ret.
    + any_draw. pick_each; by apply always_ret.
  - intros [[ua v] r] Hq. simpl in Hq.
    pick_each; any_draw; any_draw; any_draw; apply always_ret;
      (apply consistent_desktop; [|exact Hq|by vm_compute]);
      cases_of Hb; by vm_compute.
Qed.

Lemma linux_profile_consistent : always (fun p => consistent p = true) generate_linux_profile.
Proof.
  unfold generate_linux_profile.
  eapply always_bind; [apply always_choices|]. intros b Hb. simpl in Hb.
  eapply (always_bind (fun t => webgl_family_ok b t.1.2 t.2 = true)).
  - cases_of Hb; pick_branch.
    + any_draw. pick_each; by apply always_ret.
    + any_draw. pick_each; by apply always_ret.
    + any_draw. pick_each; by apply always_ret.
    + do 3 any_draw. pick_each; by apply always_ret.
  - intros [[ua v] r] Hq. simpl in Hq.
    pick_each; any_draw; any_draw; any_draw; apply always_ret;
      (apply consistent_desktop; [|exact Hq|by vm_compute]);
      cases_of Hb; by vm_compute.
Qed.

(** The weighted selection picks one of the three desktop generators. *)
Lemma selected_generator_consistent (rand_val : Z) :
  always (fun p => consistent p = true)
    (default generate_windows_profile
       (select_generator rand_val 0
          [(generate_windows_profile, 450); (generate_macos_profile, 300);
           (generate_linux_profile, 250)])).
Proof.
  simpl.
  destruct (rand_val <=? 0 + 450); [apply windows_profile_consistent|].
  destruct (rand_val <=? 0 + 450 + 300); [apply macos_profile_consistent|].
  destruct (rand_val <=? 0 + 450 + 300 + 250); [apply linux_profile_consistent|].
  apply windows_profile_consistent.
Qed.

Lemma ultimate_profile_consistent :
  always (fun p => consistent p = true) generate_ultimate_stealth_profile.
Proof.
  unfold generate_ultimate_stealth_profile. cbv zeta.
  eapply always_bind; [apply always_trivial|]. intros rand_val _.
  eapply always_bind; [apply selected_generator_consistent|]. intros p Hp.
  do 5 any_draw. apply always_ret. exact Hp.
Qed.


Lemma consistent_viewport (p : profile) :
  consistent p = true →
  ∃ vp sc vw vh sw sh,
    viewport p = Some vp ∧ screen p = Some sc
    ∧ vp !! "width" = Some vw ∧ vp !! "height" = Some vh
    ∧ sc !! "width" = Some sw ∧ sc !! "height" = Some sh
    ∧ vw ≤ sw ∧ vh ≤ sh.
Proof.
  unfold consistent. intros H.
  destruct (os p), (browser p), (webgl_vendor p), (webgl_renderer p),
    (viewport p) as [vp|], (screen p) as [sc|]; try done.
  apply andb_prop in H as [_ H]. unfold viewport_fits in H.
  destruct (vp !! "width") as [vw|] eqn:E1, (vp !! "height") as [vh|] eqn:E2,
    (sc !! "width") as [sw|] eqn:E3, (sc !! "height") as [sh|] eqn:E4; try done.
  apply andb_prop in H as [Hw Hh].
  exists vp, sc, vw, vh, sw, sh. split_and!; try done; lia.
Qed.



End ProfileProps.

(** ** Stealth script synthesizer *)

Module SynthProps.
Import Py Profile Synth.



Lemma evaluate_holes (n : script_profile) (w h : Z) :
  n_screen n !! "width" = Some w → n_screen n !! "height" = Some h →
  ∃ values, evaluate (holes n) = Ok values.
Proof.
  intros Hw Hh. unfold holes, getitem. rewrite Hw, Hh. eexists. reflexivity.
Qed.

Lemma evaluate_holes_no_width (n : script_profile) :
  n_screen n !! "width" = None → evaluate (holes n) = Raise (KeyError "width").
Proof. intros Hw. unfold holes, getitem. rewrite Hw. reflexivity. Qed.

Lemma evaluate_holes_no_height (n : script_profile) (w : Z) :
  n_screen n !! "width" = Some w → n_screen n !! "height" = None →
  evaluate (holes n) = Raise (KeyError "height").
Proof. intros Hw Hh. unfold holes, getitem. rewrite Hw, Hh. reflexivity. Qed.

Lemma screen_of_defaults (p : profile) :
  screen_complete p →
  ∃ w h, n_screen (with_defaults p) !! "width" = Some w
       ∧ n_screen (with_defaults p) !! "height" = Some h.
Proof.
  intros H. unfold with_defaults. simpl. destruct (screen p) as [sc|] eqn:E; simpl.
  - destruct (H sc E) as [[w Hw] [h Hh]]. by exists w, h.
  - by exists 1920, 1080.
Qed.

(** The synthesizer returns a script exactly on the profiles whose
    [screen], if present, has both sizes. *)
Lemma stealth_script_ok_iff (p : profile) :
  is_ok (generate_ultimate_stealth_script p) = true ↔ screen_complete p.
Proof.
  split.
  - intros H sc Hsc. unfold generate_ultimate_stealth_script in H.
    assert (Hn : n_screen (with_defaults p) = sc) by (unfold with_defaults; simpl; by rewrite Hsc).
    destruct (sc !! "width") as [w|] eqn:Hw.
    + destruct (sc !! "height") as [h|] eqn:Hh; [by split; eexists|].
      rewrite (evaluate_holes_no_height _ w) in H by (by rewrite Hn). done.
    + rewrite evaluate_holes_no_width in H by (by rewrite Hn). done.
  - intros H. destruct (screen_of_defaults p H) as (w & h & Hw & Hh).
    destruct (evaluate_holes _ w h Hw Hh) as [values Hv].
    unfold generate_ultimate_stealth_script. by rewrite Hv.
Qed.





End SynthProps.

(** ** Registration flow *)

Module FlowProps.
Import Py Rng Flow.

(** *** Duplicate email *)

Lemma credentials_cases (a : attempt) (d : flow_data) :
  credentials a d =
    if default false (retry_with_proxy d) && truthy (full_name d) && truthy (password d)
    then (default "" (full_name d), default "" (password d))
    else fresh_credentials a.
Proof.
  unfold credentials. destruct (default false (retry_with_proxy d)); [|done].
  simpl. by destruct (truthy (full_name d) && truthy (password d)).
Qed.

(** What one pass leaves behind when the page shows the duplicate-email
    warning. *)
Lemma duplicate_pass_result (a : attempt) (text : string) (w : world)
    (ph se pz : bool) (fp : option string) :
  access_ok a = true → EMAIL_RE_match (strip text) = true → user_session w = None →
  outcome a = Submitted true ph se pz fp →
  ∃ w1, got_email_pass a text w = (w1, false)
    ∧ fsm_state w1 = Some waiting_for_email
    ∧ user_session w1 = None
    ∧ restarts w1 = restarts w
    ∧ email (data w1) = Some (strip text)
    ∧ full_name (data w1) = Some (credentials a (data w)).1
    ∧ password (data w1) = Some (credentials a (data w)).2
    ∧ previous_email (data w1) = Some (Some (strip text))
    ∧ restart_reason (data w1) = Some (Some "duplicate_email")
    ∧ original_full_name (data w1) = Some (credentials a (data w)).1
    ∧ original_password (data w1) = Some (credentials a (data w)).2
    ∧ retry_with_proxy (data w1) = retry_with_proxy (data w)
    ∧ puzzle_retry_count (data w1) = puzzle_retry_count (data w).
Proof.
  intros Hacc Hvalid Hsess Hout. unfold got_email_pass.
  rewrite Hacc, Hvalid, Hsess, Hout. simpl.
  destruct (credentials a (data w)) as [n p]. simpl.
  destruct (default false (retry_with_proxy (data w))); simpl.
  - eexists. split; [reflexivity|]. simpl. by split_and!.
  - destruct (bool_decide (is_Some (previous_email (data w)))
              || bool_decide (is_Some (restart_reason (data w)))); simpl;
      (eexists; split; [reflexivity|]; simpl; by split_and!).
Qed.

(** C1 (as amended): when a pass meets the duplicate-email warning, the
    flow goes back to waiting for an email; the email, name and password of
    that pass stay in the context, the name and password also under
    [original_full_name] and [original_password], together with the marks
    [previous_email] and [restart_reason], and the proxy-retry keys are
    kept as they were.  The next pass reuses the stored name and password
    only when the context is marked [retry_with_proxy]; otherwise it draws
    a new name and a new password. *)
Theorem duplicate_email_restart (a : attempt) (later : list attempt) (text : string)
    (w : world) (ph se pz : bool) (fp : option string) :
  access_ok a = true → EMAIL_RE_match (strip text) = true → user_session w = None →
  outcome a = Submitted true ph se pz fp →
  ∃ w1, got_email (a :: later) text w = Some w1
    ∧ fsm_state w1 = Some waiting_for_email
    ∧ email (data w1) = Some (strip text)
    ∧ full_name (data w1) = Some (credentials a (data w)).1
    ∧ password (data w1) = Some (credentials a (data w)).2
    ∧ previous_email (data w1) = Some (Some (strip text))
    ∧ restart_reason (data w1) = Some (Some "duplicate_email")
    ∧ original_full_name (data w1) = full_name (data w1)
    ∧ original_password (data w1) = password (data w1)
    ∧ retry_with_proxy (data w1) = retry_with_proxy (data w)
    ∧ puzzle_retry_count (data w1) = puzzle_retry_count (data w)
    ∧ (∀ a2, credentials a2 (data w1) =
         if default false (retry_with_proxy (data w))
            && truthy (full_name (data w1)) && truthy (password (data w1))
         then ((credentials a (data w)).1, (credentials a (data w)).2)
         else fresh_credentials a2).
Proof.
  intros Hacc Hvalid Hsess Hout.
  destruct (duplicate_pass_result a text w ph se pz fp Hacc Hvalid Hsess Hout)
    as (w1 & Hpass & Hst & _ & _ & He & Hn & Hp & Hpe & Hrr & Hon & Hop & Hrp & Hpc).
  exists w1. simpl. rewrite Hpass. split_and!; try done.
  - by rewrite Hon, Hn.
  - by rewrite Hop, Hp.
  - intros a2. rewrite credentials_cases, Hrp, Hn, Hp. done.
Qed.

Lemma duplicate_email_restart_witness :
  access_ok sample_duplicate = true
  ∧ EMAIL_RE_match (strip "old@example.com") = true
  ∧ user_session fresh_world = None
  ∧ outcome sample_duplicate = Submitted true false false false None
  ∧ ∃ w1, got_email [sample_duplicate] "old@example.com" fresh_world = Some w1
          ∧ fsm_state w1 = Some waiting_for_email.
Proof.
  split_and!; try reflexivity.
  destruct (duplicate_email_restart sample_duplicate [] "old@example.com" fresh_world
              false false false None eq_refl eq_refl eq_refl eq_refl)
    as (w1 & H1 & H2 & _).
  exists w1. by split.
Defined.

(** C1 fails as stated: after a duplicate-email warning on a first
    submission, the pass for the new email draws a new name and password
    ("Jane Brown" with "tok2") instead of the stored "Alex Jones" with
    "tokd". *)
Lemma restart_draws_new_credentials :
  (∃ w1, got_email [sample_duplicate] "old@example.com" fresh_world = Some w1
         ∧ full_name (data w1) = Some "Alex Jones" ∧ password (data w1) = Some "tokd"
         ∧ original_full_name (data w1) = Some "Alex Jones"
         ∧ credentials sample_stop (data w1) = ("Jane Brown", "tok2")
         ∧ (full_name <$> (data <$> got_email [sample_stop] "new@example.com" w1))
           = Some (Some "Jane Brown"))
  ∧ ¬ restart_reuses_credentials.
Proof.
  split.
  - eexists. split; [reflexivity|]. by split_and!.
  - intros H.
    destruct (H sample_duplicate "old@example.com" _ eq_refl eq_refl eq_refl) as [_ H2].
    destruct (H2 sample_stop) as [Hn _]. discriminate Hn.
Qed.

(** *** Puzzle escalation *)











End FlowProps.

(** ** Selector learning store: further properties *)

Module LearnerMore.
Import Py Learner Measures.

Lemma filter_not_learned_all (learned l : list string) :
  (∀ x, x ∈ l → x ∈ learned) → filter (fun s => s ∉ learned) l = [].
Proof.
  induction l as [|x l IH]; intros H; [done|].
  rewrite filter_cons. destruct (decide (x ∉ learned)) as [Hx|Hx].
  - exfalso. apply Hx, H. by left.
  - apply IH. intros y Hy. apply H. by right.
Qed.

Lemma filter_again (learned l : list string) :
  filter (fun s => s ∉ learned) (filter (fun s => s ∉ learned) l)
  = filter (fun s => s ∉ learned) l.
Proof.
  induction l as [|x l IH]; [done|].
  rewrite filter_cons. destruct (decide (x ∉ learned)) as [Hx|Hx]; [|done].
  rewrite filter_cons, decide_True by done. by rewrite IH.
Qed.

(** X1: for a category with no learned locator (unknown to the store, or
    with an empty list) the merge returns the base list as it is, order and
    repetitions included. *)
Theorem merge_without_learned_is_base (st : gmap string (list entry)) (category : string)
    (base : list string) :
  learned_of st category = [] → get_combined_selectors st category base = base.
Proof.
  intros H. unfold get_combined_selectors. rewrite H. simpl.
  induction base as [|x base IH]; [done|].
  rewrite filter_cons, decide_True by apply not_elem_of_nil. by rewrite IH.
Qed.

Lemma merge_without_learned_is_base_witness :
  learned_of default_store "continue_selectors" = []
  ∧ get_combined_selectors default_store "continue_selectors" ["#next"; "#next"]
    = ["#next"; "#next"].
Proof.
  assert (H : learned_of default_store "continue_selectors" = []) by reflexivity.
  split; [exact H|].
  exact (merge_without_learned_is_base default_store "continue_selectors" ["#next"; "#next"] H).
Defined.

(** X2: merging is idempotent: giving an already merged list back to the
    merge changes nothing, so the learned locators are never prepended
    twice. *)
Theorem merge_is_idempotent (st : gmap string (list entry)) (category : string)
    (base : list string) :
  get_combined_selectors st category (get_combined_selectors st category base)
  = get_combined_selectors st category base.
Proof.
  unfold get_combined_selectors. rewrite filter_app.
  rewrite (filter_not_learned_all _ (learned_of st category)) by done.
  by rewrite filter_again.
Qed.

Lemma entries_after_add (l : learner) category sel ctx t1 t2 :
  learned_selectors (add_selector category sel ctx t1 t2 l) !! category
  = Some (match bump_existing sel t2 (default [] (learned_selectors l !! category)) with
          | Some r => r
          | None => default [] (learned_selectors l !! category) ++ [Entry sel ctx t1 1 None]
          end).
Proof.
  unfold add_selector. simpl. rewrite lookup_insert_eq.
  destruct (learned_selectors l !! category) eqn:E; simpl.
  - by rewrite E.
  - by rewrite lookup_insert_eq.
Qed.

Lemma other_category_after_add (l : learner) category sel ctx t1 t2 (c : string) :
  c ≠ category →
  default [] (learned_selectors (add_selector category sel ctx t1 t2 l) !! c)
  = default [] (learned_selectors l !! c).
Proof.
  intros Hc. unfold add_selector. simpl. rewrite lookup_insert_ne by done.
  destruct (learned_selectors l !! category); [done|]. by rewrite lookup_insert_ne.
Qed.

Lemma bump_existing_known sel now (l : list entry) :
  sel ∈ selector <$> l → is_Some (bump_existing sel now l).
Proof.
  induction l as [|e l IH]; simpl; [by intros H%elem_of_nil|].
  intros H. destruct (decide (selector e = sel)); [by eexists|].
  apply elem_of_cons in H as [H|H]; [by symmetry in H|].
  destruct (IH H) as [r ->]. by eexists.
Qed.

Lemma bump_existing_hit sel now (l r : list entry) :
  bump_existing sel now l = Some r → sel ∈ selector <$> l.
Proof.
  revert r. induction l as [|e l IH]; intros r; simpl; [done|].
  destruct (decide (selector e = sel)) as [He|He].
  - intros _. rewrite <- He. by left.
  - destruct (bump_existing sel now l) as [r'|]; [|done].
    intros _. right. by apply (IH r').
Qed.

(** The learned locators of the category after a record: the same list
    when the locator was known, the list with the locator appended when it
    was not. *)
Lemma learned_after_add (l : learner) category sel ctx t1 t2 :
  let old := learned_of (learned_selectors l) category in
  let new := learned_of (learned_selectors (add_selector category sel ctx t1 t2 l)) category in
  (sel ∈ old ∧ new = old) ∨ ((sel ∉ old) ∧ new = old ++ [sel]).
Proof.
  intros old new. unfold new, old, learned_of. rewrite entries_after_add. simpl.
  destruct (bump_existing sel t2 (default [] (learned_selectors l !! category)))
    as [r|] eqn:Hb.
  - left. split; [by apply bump_existing_hit in Hb|].
    by apply LearnerProps.bump_existing_selectors in Hb.
  - right. split; [by apply (LearnerProps.bump_existing_found _ _ _ Hb)|].
    by rewrite fmap_app.
Qed.

Lemma learned_kept_after_add (l : learner) category sel ctx t1 t2 (c x : string) :
  x ∈ learned_of (learned_selectors l) c →
  x ∈ learned_of (learned_selectors (add_selector category sel ctx t1 t2 l)) c.
Proof.
  intros Hx. destruct (decide (c = category)) as [->|Hc].
  - destruct (learned_after_add l category sel ctx t1 t2) as [[_ ->]|[_ ->]]; [done|].
    apply elem_of_app. by left.
  - unfold learned_of. by rewrite other_category_after_add.
Qed.

Lemma recorded_is_learned (l : learner) category sel ctx t1 t2 :
  sel ∈ learned_of (learned_selectors (add_selector category sel ctx t1 t2 l)) category.
Proof.
  destruct (learned_after_add l category sel ctx t1 t2) as [[H ->]|[_ ->]]; [done|].
  apply elem_of_app. right. by left.
Qed.

(** X3: a record never removes anything: every locator learned for any
    category before the call is still learned afterwards, the lists of the
    other categories are as they were, the recorded locator is learned for
    its category, and that list grows by at most one. *)
Theorem add_selector_only_grows (l : learner) (category sel ctx t1 t2 : string) :
  let l' := add_selector category sel ctx t1 t2 l in
  (∀ c x, x ∈ learned_of (learned_selectors l) c → x ∈ learned_of (learned_selectors l') c)
  ∧ (∀ c, c ≠ category →
       default [] (learned_selectors l' !! c) = default [] (learned_selectors l !! c))
  ∧ sel ∈ learned_of (learned_selectors l') category
  ∧ (length (learned_of (learned_selectors l') category)
     ≤ S (length (learned_of (learned_selectors l) category)))%nat.
Proof.
  intros l'. split_and!.
  - intros c x. apply learned_kept_after_add.
  - intros c Hc. by apply other_category_after_add.
  - apply recorded_is_learned.
  - destruct (learned_after_add l category sel ctx t1 t2) as [[_ H]|[_ H]];
      unfold l'; rewrite H; [lia|]. rewrite length_app. simpl. lia.
Qed.

(** X4: a recorded locator is tried before every default: after
    [add_selector], the merged list of the category has the locator at a
    position inside its learned prefix, whatever the base list is. *)
Theorem recorded_selector_leads_merge (l : learner) (category sel ctx t1 t2 : string)
    (base : list string) :
  let st := learned_selectors (add_selector category sel ctx t1 t2 l) in
  ∃ i, get_combined_selectors st category base !! i = Some sel
       ∧ (i < length (learned_of st category))%nat
       ∧ ∀ j y, get_combined_selectors st category base !! j = Some y →
                y ∉ learned_of st category → (i < j)%nat.
Proof.
  intros st.
  pose proof (recorded_is_learned l category sel ctx t1 t2) as Hin.
  fold st in Hin. apply list_elem_of_lookup in Hin as [i Hi].
  exists i. split_and!.
  - unfold get_combined_selectors.
    rewrite lookup_app_l; [exact Hi|]. eapply lookup_lt_Some. exact Hi.
  - eapply lookup_lt_Some. exact Hi.
  - intros j y Hj Hy.
    eapply (LearnerProps.merged_order st category base i j sel y); try done.
    + unfold get_combined_selectors.
      rewrite lookup_app_l; [exact Hi|]. eapply lookup_lt_Some. exact Hi.
    + eapply list_elem_of_lookup_2. exact Hi.
Qed.

Lemma bump_existing_fields sel now (l r : list entry) :
  bump_existing sel now l = Some r →
  context <$> r = context <$> l ∧ learned_at <$> r = learned_at <$> l
  ∧ foldr Z.add 0 (success_count <$> r) = foldr Z.add 0 (success_count <$> l) + 1.
Proof.
  revert r. induction l as [|e l IH]; intros r; simpl; [done|].
  destruct (decide (selector e = sel)).
  - intros [= <-]. rewrite !fmap_cons. cbn [foldr context learned_at success_count].
    change (list_fmap entry Z success_count l) with (success_count <$> l).
    split_and!; try done. lia.
  - destruct (bump_existing sel now l) as [r'|]; [|done].
    intros [= <-]. destruct (IH r' eq_refl) as (Hc & Ha & Hs).
    rewrite !fmap_cons. cbn [foldr]. rewrite Hc, Ha, Hs.
    change (list_fmap entry Z success_count l) with (success_count <$> l).
    split_and!; try done. lia.
Qed.

(** X5: every record adds exactly one to the sum of the counters of its
    category; and a record of a locator that is already learned keeps the
    stored contexts and first-learned times of the category: the context
    given with the repeated record is dropped. *)
Theorem add_selector_counts_each_record (l : learner) (category sel ctx t1 t2 : string) :
  let st := learned_selectors l in
  let st' := learned_selectors (add_selector category sel ctx t1 t2 l) in
  total_count st' category = total_count st category + 1
  ∧ (sel ∈ learned_of st category →
     context <$> default [] (st' !! category) = context <$> default [] (st !! category)
     ∧ learned_at <$> default [] (st' !! category) = learned_at <$> default [] (st !! category)).
Proof.
  intros st st'. unfold total_count, st', learned_of. rewrite entries_after_add. simpl.
  fold st.
  destruct (bump_existing sel t2 (default [] (st !! category))) as [r|] eqn:Hb.
  - destruct (bump_existing_fields _ _ _ _ Hb) as (Hc & Ha & Hs). by split.
  - split.
    + rewrite fmap_app, foldr_app. simpl.
      generalize (success_count <$> default [] (st !! category)).
      intros zs. induction zs as [|z zs IH]; simpl; lia.
    + intros Hin. destruct (bump_existing_known sel t2 _ Hin) as [r Hr]. congruence.
Qed.

End LearnerMore.

(** ** Device profiles: further properties *)

Module ProfileMore.
Import Py Rng Profile Measures ProfileProps.

Lemma prefix_app_l (w s t : string) :
  String.prefix w s = true → String.prefix w (s +:+ t) = true.
Proof.
  revert s. induction w as [|a w IH]; intros s.
  - intros _. by destruct (s +:+ t).
  - destruct s as [|b s]; simpl; [done|].
    destruct (ascii_dec a b); [apply IH|done].
Qed.

Lemma contains_app_r (w s t : string) :
  contains w t = true → contains w (s +:+ t) = true.
Proof.
  intros H. induction s as [|c s IH]; simpl; [done|].
  rewrite IH. apply orb_true_r.
Qed.

Lemma contains_app_l (w s t : string) :
  contains w s = true → contains w (s +:+ t) = true.
Proof.
  induction s as [|c s IH]; simpl.
  - destruct w; simpl; [|done]. intros _. by destruct t.
  - intros H. apply orb_prop in H as [H|H].
    + pose proof (prefix_app_l w (String c s) t H) as Hp. simpl in Hp. by rewrite Hp.
    + rewrite (IH H). apply orb_true_r.
Qed.

Lemma always_randint (a b : Z) : a ≤ b → always (fun z => a ≤ z ≤ b) (randint a b).
Proof.
  intros Hab s. unfold randint, mbind, gen_bind, mret, gen_ret.
  destruct (draw s) as [n s']. simpl.
  pose proof (Z.mod_pos_bound (Z.of_nat n) (b - a + 1) ltac:(lia)). lia.
Qed.

(** Finds the token of a browser inside a user agent built by appending. *)
Ltac find_token :=
  repeat first [reflexivity | (apply contains_app_l; reflexivity) | apply contains_app_r].

(** The two facts about a user agent: how it starts, what it carries. *)
Ltac ua_facts :=
  apply always_ret; cbn [fst snd]; apply andb_true_intro; split;
  [first [reflexivity | (apply prefix_app_l; reflexivity)] | find_token].

Lemma desktop_ok_desktop o b ua v r vp sc scale cores memory pl :
  platform_of o = Some pl → hardware_ok o scale cores memory = true →
  String.prefix (ua_prefix o) ua && contains (ua_token b) ua = true →
  desktop_ok (desktop o b ua v r vp sc scale cores memory pl) = true.
Proof.
  intros H1 H2 H3. unfold desktop_ok, desktop. cbn -[ua_prefix ua_token hardware_ok platform_of].
  rewrite H1, H2. rewrite !bool_decide_eq_true_2 by done.
  apply andb_prop in H3 as [-> ->]. reflexivity.
Qed.

Lemma windows_profile_desktop : always (fun p => desktop_ok p = true) generate_windows_profile.
Proof.
  unfold generate_windows_profile. any_draw.
  eapply always_bind; [apply always_choices|]. intros b Hb. simpl in Hb.
  eapply (always_bind (fun t =>
            String.prefix (ua_prefix "Windows") t.1.1 && contains (ua_token b) t.1.1 = true)).
  - cases_of Hb; pick_branch.
    + any_draw. any_draw. ua_facts.
    + any_draw. any_draw. ua_facts.
    + any_draw. any_draw. ua_facts.
    + do 4 any_draw. ua_facts.
  - intros [[ua v] r] Hq. cbn [fst snd] in Hq.
    any_draw.
    eapply always_bind; [apply always_choice; discriminate|]. intros scale Hscale. cbn beta.
    eapply always_bind; [apply (always_randint 4 16); lia|]. intros cores Hcores. cbn beta.
    eapply always_bind; [apply always_choice; discriminate|]. intros memory Hmem. cbn beta.
    apply always_ret. apply desktop_ok_desktop; [reflexivity| |exact Hq].
    unfold hardware_ok. rewrite decide_True by done.
    rewrite !bool_decide_eq_true_2 by done.
    destruct Hcores as [?%Z.leb_le ?%Z.leb_le]. by rewrite H, H0.
Qed.

Lemma macos_profile_desktop : always (fun p => desktop_ok p = true) generate_macos_profile.
Proof.
  unfold generate_macos_profile. any_draw.
  eapply always_bind; [apply always_choices|]. intros b Hb. simpl in Hb.
  eapply (always_bind (fun t =>
            String.prefix (ua_prefix "macOS") t.1.1 && contains (ua_token b) t.1.1 = true)).
  - cases_of Hb; pick_branch.
    + do 6 any_draw. ua_facts.
    + do 6 any_draw. ua_facts.
    + any_draw. any_draw. ua_facts.
    + any_draw. any_draw. ua_facts.
  - intros [[ua v] r] Hq. cbn [fst snd] in Hq.
    any_draw.
    eapply always_bind; [apply always_choice; discriminate|]. intros scale Hscale. cbn beta.
    eapply always_bind; [apply (always_randint 4 12); lia|]. intros cores Hcores. cbn beta.
    eapply always_bind; [apply always_choice; discriminate|]. intros memory Hmem. cbn beta.
    apply always_ret. apply desktop_ok_desktop; [reflexivity| |exact Hq].
    unfold hardware_ok. rewrite decide_False by done. rewrite decide_True by done.
    rewrite !bool_decide_eq_true_2 by done.
    destruct Hcores as [?%Z.leb_le ?%Z.leb_le]. by rewrite H, H0.
Qed.

Lemma linux_profile_desktop : always (fun p => desktop_ok p = true) generate_linux_profile.
Proof.
  unfold generate_linux_profile.
  eapply always_bind; [apply always_choices|]. intros b Hb. simpl in Hb.
  eapply (always_bind (fun t =>
            String.prefix (ua_prefix "Linux") t.1.1 && contains (ua_token b) t.1.1 = true)).
  - cases_of Hb; pick_branch.
    + any_draw. any_draw. ua_facts.
    + any_draw. any_draw. ua_facts.
    + any_draw. any_draw. ua_facts.
    + do 4 any_draw. ua_facts.
  - intros [[ua v] r] Hq. cbn [fst snd] in Hq.
    any_draw.
    eapply always_bind; [apply always_choice; discriminate|]. intros scale Hscale. cbn beta.
    eapply always_bind; [apply (always_randint 2 16); lia|]. intros cores Hcores. cbn beta.
    eapply always_bind; [apply always_choice; discriminate|]. intros memory Hmem. cbn beta.
    apply always_ret. apply desktop_ok_desktop; [reflexivity| |exact Hq].
    unfold hardware_ok. rewrite !decide_False by done. rewrite decide_True by done.
    rewrite !bool_decide_eq_true_2 by done.
    destruct Hcores as [?%Z.leb_le ?%Z.leb_le]. by rewrite H, H0.
Qed.

Lemma always_weaken {A} (P Q : A -> Prop) (g : gen A) :
  (∀ a, P a → Q a) → always P g → always Q g.
Proof. intros H Hg s. apply H, Hg. Qed.

Lemma selected_generator_desktop (rand_val : Z) :
  always (fun p => desktop_ok p = true)
    (default generate_windows_profile
       (select_generator rand_val 0
          [(generate_windows_profile, 450); (generate_macos_profile, 300);
           (generate_linux_profile, 250)])).
Proof.
  simpl.
  destruct (rand_val <=? 0 + 450); [apply windows_profile_desktop|].
  destruct (rand_val <=? 0 + 450 + 300); [apply macos_profile_desktop|].
  destruct (rand_val <=? 0 + 450 + 300 + 250); [apply linux_profile_desktop|].
  apply windows_profile_desktop.
Qed.

Lemma location_row_coherent :
  always (fun loc =>
            bool_decide (locale_of (loc_timezone loc) = Some (loc_locale loc))
            && (-900000 <=? loc_latitude loc) && (loc_latitude loc <=? 900000)
            && (-1800000 <=? loc_longitude loc) && (loc_longitude loc <=? 1800000) = true)
    generate_random_location.
Proof.
  unfold generate_random_location.
  eapply always_weaken; cycle 1; [apply always_choice; discriminate|].
  intros loc H. cbv beta in H. cases_of H; by vm_compute.
Qed.

Lemma ultimate_profile_desktop :
  always (fun p => desktop_ok p = true ∧ surroundings_ok p = true)
    generate_ultimate_stealth_profile.
Proof.
  unfold generate_ultimate_stealth_profile. cbv zeta.
  eapply always_bind; [apply always_trivial|]. intros rand_val _.
  eapply always_bind; [apply selected_generator_desktop|]. intros p Hp.
  eapply always_bind; [apply location_row_coherent|]. intros loc Hloc. cbn beta.
  eapply always_bind; [apply always_choice; discriminate|]. intros ct Hct. cbn beta.
  eapply always_bind; [apply (always_randint 20 150); lia|]. intros rtt Hrtt. cbn beta.
  eapply always_bind; [apply (always_randint 10 500); lia|]. intros down Hdown. cbn beta.
  eapply always_bind; [apply (always_randint 2 5); lia|]. intros npl Hnpl. cbn beta.
  apply always_ret. split; [exact Hp|].
  unfold surroundings_ok.
  cbn [timezone locale city geolocation connection_type connection_rtt
       connection_downlink plugins].
  rewrite Hloc. rewrite bool_decide_eq_true_2 by done.
  destruct Hrtt as [?%Z.leb_le ?%Z.leb_le], Hdown as [?%Z.leb_le ?%Z.leb_le],
    Hnpl as [?%Z.leb_le ?%Z.leb_le].
  by repeat match goal with H : _ = true |- _ => rewrite H; clear H end.
Qed.

(** X6: every generated profile is a desktop one: its type is [desktop],
    it has no touch points and no mobile flag, its platform string is the
    one of its operating system, and its user agent starts with the token
    of that system and carries the product token of its browser. *)
Theorem generated_profile_is_desktop (s : rng) :
  let p := (generate_ultimate_stealth_profile s).1 in
  type p = Some "desktop" ∧ max_touch_points p = Some 0
  ∧ ∃ o b ua, os p = Some o ∧ browser p = Some b ∧ user_agent p = Some ua
      ∧ platform p = platform_of o ∧ is_Some (platform_of o)
      ∧ String.prefix (ua_prefix o) ua = true ∧ contains (ua_token b) ua = true.
Proof.
  intros p. destruct (ultimate_profile_desktop s) as [H _]. fold p in H.
  unfold desktop_ok in H.
  destruct (type p) as [t|], (os p) as [o|], (browser p) as [b|], (user_agent p) as [ua|],
    (platform p) as [pl|], (max_touch_points p) as [touch|], (device_scale_factor p),
    (hardware_concurrency p), (device_memory p); try done.
  repeat (apply andb_prop in H as [H ?]).
  apply bool_decide_eq_true in H as ->. split; [done|].
  split; [f_equal; by apply Z.eqb_eq|].
  exists o, b, ua.
  match goal with Hp : bool_decide (platform_of o = Some pl) = true |- _ =>
    apply bool_decide_eq_true in Hp; rewrite Hp end.
  split_and!; done.
Qed.

(** X7: the hardware numbers of every generated profile lie in the ranges
    of its operating system: 4 to 16 cores on Windows, 4 to 12 on macOS,
    2 to 16 on Linux, with the memory sizes and scale factors of that
    system's lists. *)
Theorem generated_hardware_in_range (s : rng) :
  let p := (generate_ultimate_stealth_profile s).1 in
  ∃ o scale cores memory,
    os p = Some o ∧ device_scale_factor p = Some scale
    ∧ hardware_concurrency p = Some cores ∧ device_memory p = Some memory
    ∧ hardware_ok o scale cores memory = true
    ∧ 2 ≤ cores ≤ 16 ∧ 4 ≤ memory ≤ 32.
Proof.
  intros p. destruct (ultimate_profile_desktop s) as [H _]. fold p in H.
  unfold desktop_ok in H.
  destruct (type p), (os p) as [o|], (browser p), (user_agent p), (platform p),
    (max_touch_points p), (device_scale_factor p) as [scale|],
    (hardware_concurrency p) as [cores|], (device_memory p) as [memory|]; try done.
  repeat (apply andb_prop in H as [H ?]).
  exists o, scale, cores, memory. split_and!; try done;
    match goal with Hh : hardware_ok _ _ _ _ = true |- _ =>
      unfold hardware_ok in Hh;
      repeat (destruct (decide _) in Hh; [|]); try done;
      repeat (apply andb_prop in Hh as [Hh ?]);
      repeat match goal with Hb : bool_decide _ = true |- _ =>
               apply bool_decide_eq_true in Hb end;
      repeat match goal with Hl : (_ <=? _) = true |- _ => apply Z.leb_le in Hl end;
      try lia;
      repeat match goal with Hm : _ ∈ _ |- _ =>
               apply elem_of_cons in Hm as [->|Hm]; try lia end;
      try (by match goal with Hm : _ ∈ [] |- _ => apply elem_of_nil in Hm end)
    end.
Qed.

(** X8: the location and network keys of every generated profile are
    coherent: the locale is the one that the location table gives for the
    time zone, the coordinates are valid, the round-trip time is between 20
    and 150, the downlink between 1.0 and 50.0, the plugin count between
    2 and 5. *)
Theorem generated_surroundings_coherent (s : rng) :
  let p := (generate_ultimate_stealth_profile s).1 in
  ∃ tz lc lat lon rtt down npl,
    timezone p = Some tz ∧ locale p = Some lc ∧ locale_of tz = Some lc
    ∧ geolocation p = Some (lat, lon)
    ∧ -900000 ≤ lat ≤ 900000 ∧ -1800000 ≤ lon ≤ 1800000
    ∧ connection_rtt p = Some rtt ∧ 20 ≤ rtt ≤ 150
    ∧ connection_downlink p = Some down ∧ 10 ≤ down ≤ 500
    ∧ plugins p = Some npl ∧ 2 ≤ npl ≤ 5.
Proof.
  intros p. destruct (ultimate_profile_desktop s) as [_ H]. fold p in H.
  unfold surroundings_ok in H.
  destruct (timezone p) as [tz|], (locale p) as [lc|], (city p),
    (geolocation p) as [[lat lon]|], (connection_type p), (connection_rtt p) as [rtt|],
    (connection_downlink p) as [down|], (plugins p) as [npl|]; try done.
  repeat (apply andb_prop in H as [H ?]).
  apply bool_decide_eq_true in H.
  repeat match goal with Hl : (_ <=? _) = true |- _ => apply Z.leb_le in Hl end.
  exists tz, lc, lat, lon, rtt, down, npl. split_and!; try done; lia.
Qed.

End ProfileMore.

(** ** Stealth script synthesizer: further properties *)

Module SynthMore.
Import Py Rng Profile Synth.

(** The values of the forty replacement fields, when the screen has both
    sizes. *)
Lemma holes_values (n : script_profile) (w h : Z) :
  n_screen n !! "width" = Some w → n_screen n !! "height" = Some h →
  evaluate (holes n) = Ok
    [ n_os n; upper (n_type n); n_os n; n_platform n; n_user_agent n;
      pretty (n_hardware_concurrency n); pretty (n_device_memory n);
      pretty (n_max_touch_points n);
      pretty w; pretty h; pretty w; pretty h;
      n_connection_type n; pretty (n_connection_rtt n);
      tenths_str (n_connection_downlink n);
      n_webgl_vendor n; n_webgl_renderer n;
      n_os n; lower (n_os n); n_locale n; n_locale n;
      battery_snippet;
      (if contains "Mozilla/" (n_user_agent n)
       then split_second "Mozilla/" (n_user_agent n) else "5.0");
      n_user_agent n;
      n_webgl_vendor n; n_webgl_renderer n;
      "chrome"; "chrome";
      n_user_agent n; n_user_agent n;
      "America/New_York";
      pretty (n_hardware_concurrency n); pretty (n_device_memory n);
      "America/New_York";
      n_webgl_vendor n; n_webgl_renderer n;
      "America/New_York";
      n_os n; n_type n; n_city n ].
Proof.
  intros Hw Hh. unfold holes, getitem. rewrite Hw, Hh. reflexivity.
Qed.

Lemma script_segments (p : profile) (segs : list segment) :
  generate_ultimate_stealth_script p = Ok segs →
  ∃ w h values,
    n_screen (with_defaults p) !! "width" = Some w
    ∧ n_screen (with_defaults p) !! "height" = Some h
    ∧ evaluate (holes (with_defaults p)) = Ok values
    ∧ segs = interleave 0 values.
Proof.
  intros H.
  assert (Hok : is_ok (generate_ultimate_stealth_script p) = true) by by rewrite H.
  apply SynthProps.stealth_script_ok_iff, SynthProps.screen_of_defaults in Hok
    as (w & h & Hw & Hh).
  unfold generate_ultimate_stealth_script in H.
  rewrite (holes_values _ w h Hw Hh) in H. injection H as <-.
  eexists w, h, _.
  split_and!; [exact Hw|exact Hh|exact (holes_values _ w h Hw Hh)|reflexivity].
Qed.

(** X9: the script does not follow the browser or the time zone of the
    profile: for every profile for which a script is produced, both
    browser-version sites say [chrome] and all three time-zone sites say
    [America/New_York], whatever the profile's [browser] and [timezone]
    are. *)
Theorem script_ignores_browser_and_timezone (p : profile) (segs : list segment) :
  generate_ultimate_stealth_script p = Ok segs →
  segs !! 53%nat = Some (Text "chrome") ∧ segs !! 55%nat = Some (Text "chrome")
  ∧ segs !! 61%nat = Some (Text "America/New_York")
  ∧ segs !! 67%nat = Some (Text "America/New_York")
  ∧ segs !! 73%nat = Some (Text "America/New_York").
Proof.
  intros H. destruct (script_segments p segs H) as (w & h & values & Hw & Hh & Hv & ->).
  rewrite (holes_values _ w h Hw Hh) in Hv. injection Hv as <-.
  by split_and!.
Qed.

Lemma script_ignores_browser_and_timezone_witness :
  generate_ultimate_stealth_script london_firefox_profile
  = generate_ultimate_stealth_script empty_profile
  ∧ default [] (match generate_ultimate_stealth_script london_firefox_profile with
                | Ok segs => Some segs
                | Raise _ => None
                end) !! 61%nat = Some (Text "America/New_York").
Proof.
  split; [reflexivity|].
  destruct (generate_ultimate_stealth_script london_firefox_profile) as [segs|] eqn:E;
    [|discriminate E].
  exact (proj1 (proj2 (proj2 (script_ignores_browser_and_timezone
                                london_firefox_profile segs E)))).
Defined.

(** X10: every WebGL override site of the script reports the same vendor
    and renderer, those of the profile, or [Google Inc.] and [Generic GPU]
    when the profile has none; the other defaults written at the later
    sites are never used.  The screen sites report the width for both
    [width] and [availWidth] and the height for both heights. *)
Theorem script_reports_profile_gpu_and_screen (p : profile) (segs : list segment) :
  generate_ultimate_stealth_script p = Ok segs →
  let vendor := Text (default "Google Inc." (webgl_vendor p)) in
  let renderer := Text (default "Generic GPU" (webgl_renderer p)) in
  segs !! 31%nat = Some vendor ∧ segs !! 33%nat = Some renderer
  ∧ segs !! 49%nat = Some vendor ∧ segs !! 51%nat = Some renderer
  ∧ segs !! 69%nat = Some vendor ∧ segs !! 71%nat = Some renderer
  ∧ ∃ w h, default (size 1920 1080) (screen p) !! "width" = Some w
         ∧ default (size 1920 1080) (screen p) !! "height" = Some h
         ∧ segs !! 17%nat = Some (Text (pretty w)) ∧ segs !! 21%nat = Some (Text (pretty w))
         ∧ segs !! 19%nat = Some (Text (pretty h)) ∧ segs !! 23%nat = Some (Text (pretty h)).
Proof.
  intros H vendor renderer.
  destruct (script_segments p segs H) as (w & h & values & Hw & Hh & Hv & ->).
  rewrite (holes_values _ w h Hw Hh) in Hv. injection Hv as <-.
  split_and!; try reflexivity.
  exists w, h. by split_and!.
Qed.

Lemma script_reports_profile_gpu_and_screen_witness :
  ∃ segs, generate_ultimate_stealth_script empty_profile = Ok segs
          ∧ segs !! 31%nat = Some (Text "Google Inc.").
Proof.
  destruct (generate_ultimate_stealth_script empty_profile) as [segs|] eqn:E;
    [|discriminate E].
  exists segs. split; [reflexivity|].
  exact (proj1 (script_reports_profile_gpu_and_screen empty_profile segs E)).
Defined.

(** X11: the synthesizer never raises on a profile that the generator
    returned: for every state of the randomness source the generated
    profile has a complete screen, so a script is produced. *)
Theorem generated_profile_synthesizes (s : rng) :
  ∃ segs, generate_ultimate_stealth_script (generate_ultimate_stealth_profile s).1 = Ok segs.
Proof.
  pose proof (ProfileProps.ultimate_profile_consistent s) as H.
  destruct (ProfileProps.consistent_viewport _ H)
    as (vp & sc & vw & vh & sw & sh & _ & Hsc & _ & _ & Hw & Hh & _).
  assert (Hc : screen_complete (generate_ultimate_stealth_profile s).1).
  { intros sc' Hsc'. rewrite Hsc in Hsc'. injection Hsc' as <-. split; by eexists. }
  apply SynthProps.stealth_script_ok_iff in Hc.
  destruct (generate_ultimate_stealth_script _) as [segs|]; [by exists segs|done].
Qed.

End SynthMore.

(** ** Registration flow: further properties *)

Module FlowMore.
Import Py Rng Flow.

(** X12: a detected puzzle is not escalated when no retry is recorded and
    the proxy is already switched on: neither retry branch applies, and
    the pass goes on to the OTP stage with the browser session kept, as if
    no puzzle had been seen. *)
Theorem puzzle_with_proxy_on_reaches_otp (a : attempt) (text : string) (w : world)
    (fp : option string) :
  access_ok a = true → EMAIL_RE_match (strip text) = true → user_session w = None →
  check_puzzle w = true → proxy_enabled w = true →
  default 0 (puzzle_retry_count (data w)) = 0 →
  outcome a = Submitted false false false true fp →
  ∃ w1, got_email_pass a text w = (w1, false)
    ∧ fsm_state w1 = Some waiting_for_otp
    ∧ last (sent w1) = Some EnterOtp
    ∧ is_Some (user_session w1)
    ∧ restarts w1 = restarts w
    ∧ puzzle_retry_count (data w1) = puzzle_retry_count (data w).
Proof.
  intros Hacc Hvalid Hsess Hcp Hpe Hc Hout. unfold got_email_pass.
  rewrite Hacc, Hvalid, Hsess, Hout. simpl.
  destruct (credentials a (data w)) as [n p].
  destruct (default false (retry_with_proxy (data w)));
    [|destruct (bool_decide (is_Some (previous_email (data w)))
               || bool_decide (is_Some (restart_reason (data w))))];
    simpl; rewrite Hcp, Hpe, Hc; simpl;
    (eexists; split; [reflexivity|simpl; split_and!; try done; by rewrite last_snoc]).
Qed.

Lemma puzzle_with_proxy_on_reaches_otp_witness :
  ∃ w1, got_email_pass sample_puzzle "x@example.com"
          (World (Some waiting_for_email) no_data true "http://10.0.0.9:3128" true None [] 0)
        = (w1, false)
        ∧ fsm_state w1 = Some waiting_for_otp.
Proof.
  destruct (puzzle_with_proxy_on_reaches_otp sample_puzzle "x@example.com"
              (World (Some waiting_for_email) no_data true "http://10.0.0.9:3128" true None [] 0)
              (Some "http://10.0.0.1:8080") eq_refl eq_refl eq_refl eq_refl eq_refl eq_refl
              eq_refl) as (w1 & H1 & H2 & _).
  exists w1. by split.
Defined.

Lemma fresh_name_truthy (a : attempt) : truthy (Some (fresh_credentials a).1) = true.
Proof.
  unfold fresh_credentials, mbind, gen_bind, mret, gen_ret. simpl.
  destruct (choice FIRST_NAMES "" (name_draws a)) as [x s1].
  destruct (choice LAST_NAMES "" s1) as [y s2]. simpl.
  by destruct x.
Qed.

Lemma credentials_truthy (a : attempt) (d : flow_data) :
  token a ≠ "" →
  truthy (Some (credentials a d).1) && truthy (Some (credentials a d).2) = true.
Proof.
  intros Ht. rewrite FlowProps.credentials_cases.
  destruct (default false (retry_with_proxy d) && truthy (full_name d) && truthy (password d))
    eqn:E.
  - apply andb_prop in E as [E Hp]. apply andb_prop in E as [_ Hn]. simpl.
    destruct (full_name d) as [[|]|], (password d) as [[|]|]; done.
  - rewrite fresh_name_truthy. simpl. destruct (token a); [done|reflexivity].
Qed.

(** X13: an automatic retry keeps the identity of the attempt: when a pass
    ends by re-entering [got_email], the context afterwards is marked as a
    proxy retry and holds the email, name and password that this pass
    used, and the next pass takes exactly these instead of drawing new
    ones.  This holds for a pass on a context with no retry recorded and
    for one on a context already marked. *)
Theorem retry_keeps_credentials (a : attempt) (text : string) (w w1 : world) :
  got_email_pass a text w = (w1, true) → token a ≠ "" →
  default 0 (puzzle_retry_count (data w)) = 0
  ∨ (retry_with_proxy (data w) = Some true
     ∧ truthy (full_name (data w)) && truthy (password (data w)) = true) →
  email (data w1) = Some (strip text)
  ∧ retry_with_proxy (data w1) = Some true
  ∧ full_name (data w1) = Some (credentials a (data w)).1
  ∧ password (data w1) = Some (credentials a (data w)).2
  ∧ ∀ a2, credentials a2 (data w1) = credentials a (data w).
Proof.
  intros Hpass Htok Hinv.
  pose proof (credentials_truthy a (data w) Htok) as Htr.
  assert (Hgoal : email (data w1) = Some (strip text)
                  ∧ retry_with_proxy (data w1) = Some true
                  ∧ full_name (data w1) = Some (credentials a (data w)).1
                  ∧ password (data w1) = Some (credentials a (data w)).2).
  { revert Hpass. unfold got_email_pass.
    destruct (negb (access_ok a)); [by intros [= <-]|].
    destruct (negb (EMAIL_RE_match (strip text))); [by intros [= <-]|].
    destruct (bool_decide (is_Some (user_session w))); [by intros [= <-]|].
    destruct (credentials a (data w)) as [n p].
    set (wa := if default false (retry_with_proxy (data w)) then _ else _).
    assert (Hd : email (data wa) = Some (strip text) ∧ full_name (data wa) = Some n
                 ∧ password (data wa) = Some p
                 ∧ retry_with_proxy (data wa) = retry_with_proxy (data w)
                 ∧ puzzle_retry_count (data wa) = puzzle_retry_count (data w)).
    { unfold wa. destruct (default false (retry_with_proxy (data w))); [by split_and!|].
      destruct (bool_decide (is_Some (previous_email (data w)))
                || bool_decide (is_Some (restart_reason (data w)))); by split_and!. }
    destruct Hd as (He & Hn & Hp & Hr & Hc). clearbody wa.
    destruct (outcome a) as [cs dp|du ph se pz fp]; [by intros [= <-]|].
    simpl.
    destruct du; [by intros [= <-]|].
    destruct (negb (check_puzzle wa)); [by intros [= <-]|].
    destruct ph; [by intros [= <-]|].
    destruct se; [by intros [= <-]|].
    destruct pz; simpl; [|by intros [= <-]].
    rewrite Hc.
    destruct (2 <=? default 0 (puzzle_retry_count (data w))); [by intros [= <-]|].
    destruct (default 0 (puzzle_retry_count (data w)) =? 0) eqn:H0; simpl.
    - destruct (negb (proxy_enabled wa)); simpl.
      + destruct fp; intros [= <-]; simpl. by split_and!.
      + apply Z.eqb_eq in H0. rewrite H0. simpl. by intros [= <-].
    - destruct (default 0 (puzzle_retry_count (data w)) =? 1); [|by intros [= <-]].
      intros [= <-]. apply Z.eqb_neq in H0.
      destruct Hinv as [Hz|[Hflag _]]; [done|].
      destruct fp; simpl; rewrite Hr, Hflag; by split_and!. }
  destruct Hgoal as (He & Hr & Hn & Hp). split_and!; try done.
  intros a2. rewrite (FlowProps.credentials_cases a2), Hr, Hn, Hp.
  apply andb_prop in Htr as [-> ->]. simpl. by destruct (credentials a (data w)).
Qed.

Lemma retry_keeps_credentials_witness :
  ∃ w1, got_email_pass sample_puzzle "x@example.com" fresh_world = (w1, true)
        ∧ full_name (data w1) = Some "Jane Brown"
        ∧ credentials sample_clean (data w1) = ("Jane Brown", "tok1").
Proof.
  destruct (got_email_pass sample_puzzle "x@example.com" fresh_world) as [w1 again] eqn:E.
  assert (Ha : again = true) by (by apply (f_equal snd) in E; vm_compute in E).
  subst again. exists w1. split; [reflexivity|].
  destruct (retry_keeps_credentials sample_puzzle "x@example.com" fresh_world w1 E
              ltac:(discriminate) (or_introl eq_refl)) as (_ & _ & Hn & _ & Hc).
  split; [exact Hn|exact (Hc sample_clean)].
Defined.









End FlowMore.

(** ** Suggested address variation *)

Module DotsProps.
Import Dots.

Lemma split_once_none (c : ascii) (s : list ascii) :
  c ∉ s → split_once c s = None.
Proof.
  induction s as [|x s IH]; intros H; simpl; [done|].
  apply not_elem_of_cons in H as [Hx Hs].
  destruct (Ascii.eqb x c) eqn:E; [by apply Ascii.eqb_eq in E|].
  by rewrite (IH Hs).
Qed.

Lemma split_once_some (c : ascii) (s a b : list ascii) :
  split_once c s = Some (a, b) → s = a ++ c :: b ∧ Forall (fun x => x ≠ c) a.
Proof.
  revert a. induction s as [|x s IH]; intros a; simpl; [done|].
  destruct (Ascii.eqb x c) eqn:E.
  - apply Ascii.eqb_eq in E as ->. intros [= <- <-]. by split.
  - destruct (split_once c s) as [[a' b']|]; [|done].
    intros [= <- <-]. destruct (IH a' eq_refl) as [-> Ha]. split; [done|].
    apply Forall_cons. split; [|done]. by apply Ascii.eqb_neq.
Qed.

Lemma split_once_built (c : ascii) (a b : list ascii) :
  Forall (fun x => x ≠ c) a → split_once c (a ++ c :: b) = Some (a, b).
Proof.
  induction a as [|x a IH]; intros H; simpl.
  - by rewrite Ascii.eqb_refl.
  - apply Forall_cons in H as [Hx Ha]. apply Ascii.eqb_neq in Hx. by rewrite Hx, (IH Ha).
Qed.

Lemma three_parts {A} (a b : nat) (l : list A) :
  (a ≤ b)%nat → take a l ++ drop a (take b l) ++ drop b l = l.
Proof.
  intros Hab. rewrite app_assoc.
  replace (take a l) with (take a (take b l)) by (rewrite take_take; f_equal; lia).
  by rewrite !take_drop.
Qed.

Lemma remove_dots_app (a b : list ascii) :
  remove_dots (a ++ b) = remove_dots a ++ remove_dots b.
Proof. apply filter_app. Qed.

Lemma remove_dots_clean (l : list ascii) : "."%char ∉ l → remove_dots l = l.
Proof.
  induction l as [|x l IH]; intros H; [done|].
  apply not_elem_of_cons in H as [Hx Hl]. unfold remove_dots in *.
  rewrite filter_cons, decide_True by done. by rewrite (IH Hl).
Qed.

Lemma remove_dots_has_none (l : list ascii) : "."%char ∉ remove_dots l.
Proof. unfold remove_dots. intros H. by apply list_elem_of_filter in H as [H _]. Qed.

Lemma remove_dots_again (l : list ascii) : remove_dots (remove_dots l) = remove_dots l.
Proof. apply remove_dots_clean, remove_dots_has_none. Qed.

Lemma Forall_remove_dots (P : ascii -> Prop) (l : list ascii) :
  Forall P l → Forall P (remove_dots l).
Proof.
  intros H. apply Forall_forall. intros x Hx.
  apply list_elem_of_filter in Hx as [_ Hx]. by eapply Forall_forall in H.
Qed.

(** The shape of the result on an address with an [@]: a new local part,
    the [@], the old domain. *)
Lemma add_dots_shape (email local_part domain : list ascii) :
  split_once "@" email = Some (local_part, domain) →
  ∃ local', add_dots_to_email email = local' ++ "@"%char :: domain
    ∧ Forall (fun x => x ≠ "@"%char) local'
    ∧ (dots_only local_part = true →
       remove_dots local' = remove_dots local_part
       ∧ ("."%char ∉ local_part → "."%char ∈ local'))
    ∧ (dots_only local_part = false →
       remove_dots local' = chars "new" ++ remove_dots local_part
       ∨ remove_dots local' = remove_dots local_part ++ chars "new").
Proof.
  intros Hs. unfold add_dots_to_email, dots_only. rewrite Hs.
  apply split_once_some in Hs as [_ Hat].
  assert (Hdot : Forall (fun x : ascii => x ≠ "@"%char) (chars ".")).
  { repeat constructor. discriminate. }
  assert (Hclean : Forall (fun x : ascii => x ≠ "@"%char) (remove_dots local_part))
    by by apply Forall_remove_dots.
  destruct (bool_decide ("."%char ∈ local_part)) eqn:Hd.
  - set (clean := remove_dots local_part) in *.
    destruct (4 <=? length clean)%nat eqn:H4.
    + apply Nat.leb_le in H4. set (q := (length clean / 4)%nat).
      assert (Hq : (q ≤ length clean - q)%nat).
      { unfold q. pose proof (Nat.Div0.mul_div_le (length clean) 4). lia. }
      exists (take q clean ++ chars "." ++ drop q (take (length clean - q) clean)
              ++ chars "." ++ drop (length clean - q) clean).
      split_and!.
      * by rewrite <- !app_assoc.
      * repeat (apply Forall_app; split); try done;
          repeat first [apply Forall_take | apply Forall_drop]; done.
      * intros _. split; [|intros Hno; by apply bool_decide_eq_true in Hd].
        rewrite !remove_dots_app. change (remove_dots (chars ".")) with (@nil ascii).
        simpl. rewrite <- !remove_dots_app, (three_parts q _ clean Hq).
        apply remove_dots_again.
      * done.
    + exists (chars "new." ++ clean). split_and!.
      * by rewrite <- !app_assoc.
      * apply Forall_app. split; [|done]. repeat constructor; discriminate.
      * done.
      * intros _. left. rewrite remove_dots_app.
        change (remove_dots (chars "new.")) with (chars "new").
        unfold clean. by rewrite remove_dots_again.
  - apply bool_decide_eq_false in Hd.
    pose proof (remove_dots_clean _ Hd) as Hsame.
    destruct (length local_part <? 3)%nat eqn:H3.
    + apply Nat.ltb_lt in H3.
      assert ((3 <=? length local_part)%nat = false) as -> by by apply Nat.leb_gt.
      exists (local_part ++ chars ".new"). split_and!.
      * by rewrite <- !app_assoc.
      * apply Forall_app. split; [done|]. repeat constructor; discriminate.
      * done.
      * intros _. right. rewrite remove_dots_app.
        change (remove_dots (chars ".new")) with (chars "new"). by rewrite Hsame.
    + apply Nat.ltb_ge in H3.
      assert ((3 <=? length local_part)%nat = true) as -> by by apply Nat.leb_le.
      destruct (6 <=? length local_part)%nat eqn:H6;
        [|destruct (4 <=? length local_part)%nat eqn:H4].
      * set (third := (length local_part / 3)%nat).
        exists (take third local_part ++ chars "."
                ++ drop third (take (2 * third) local_part) ++ chars "."
                ++ drop (2 * third) local_part).
        split_and!.
        -- by rewrite <- !app_assoc.
        -- repeat (apply Forall_app; split); try done;
             repeat first [apply Forall_take | apply Forall_drop]; done.
        -- intros _. split.
           ++ rewrite !remove_dots_app. change (remove_dots (chars ".")) with (@nil ascii).
              rewrite !app_nil_l, <- !remove_dots_app.
              by rewrite (three_parts third (2 * third) local_part ltac:(lia)).
           ++ intros _. apply elem_of_app. right. by left.
        -- done.
      * set (mid := (length local_part / 2)%nat).
        exists (take mid local_part ++ chars "." ++ drop mid local_part).
        split_and!.
        -- by rewrite <- !app_assoc.
        -- repeat (apply Forall_app; split); try done;
             repeat first [apply Forall_take | apply Forall_drop]; done.
        -- intros _. split.
           ++ rewrite !remove_dots_app. change (remove_dots (chars ".")) with (@nil ascii).
              simpl. by rewrite <- !remove_dots_app, take_drop.
           ++ intros _. apply elem_of_app. right. by left.
        -- done.
      * exists (take 1 local_part ++ chars "." ++ drop 1 local_part).
        split_and!.
        -- by rewrite <- !app_assoc.
        -- repeat (apply Forall_app; split); try done;
             repeat first [apply Forall_take | apply Forall_drop]; done.
        -- intros _. split.
           ++ rewrite !remove_dots_app. change (remove_dots (chars ".")) with (@nil ascii).
              simpl. by rewrite <- !remove_dots_app, take_drop.
           ++ intros _. apply elem_of_app. right. by left.
        -- done.
Qed.

(** X16: the suggestion keeps the domain: a text without [@] is returned
    as it is, and for any other text the part after the first [@] is
    unchanged and the new local part has no [@]. *)
Theorem add_dots_keeps_domain (email : list ascii) :
  ("@"%char ∉ email → add_dots_to_email email = email)
  ∧ (∀ local_part domain,
       split_once "@" email = Some (local_part, domain) →
       ∃ local', split_once "@" (add_dots_to_email email) = Some (local', domain)).
Proof.
  split.
  - intros H. unfold add_dots_to_email. by rewrite (split_once_none _ _ H).
  - intros local_part domain Hs.
    destruct (add_dots_shape _ _ _ Hs) as (local' & -> & Hat & _).
    exists local'. by apply split_once_built.
Qed.

Lemma add_dots_keeps_domain_witness :
  ∃ local', split_once "@" (add_dots_to_email (chars "johnsmith@gmail.com"))
            = Some (local', chars "gmail.com").
Proof.
  exact (proj2 (add_dots_keeps_domain (chars "johnsmith@gmail.com"))
           (chars "johnsmith") (chars "gmail.com") eq_refl).
Defined.



(** X18: in the other cases the suggestion is not a dot variation: for an
    undotted local part of fewer than three characters, and for a dotted
    one with fewer than four other characters, the new local part has the
    letters [new] added, so without dots it differs from the old one. *)
Theorem add_dots_short_adds_new (email local_part domain : list ascii) :
  split_once "@" email = Some (local_part, domain) → dots_only local_part = false →
  ∃ local', add_dots_to_email email = local' ++ "@"%char :: domain
    ∧ (remove_dots local' = chars "new" ++ remove_dots local_part
       ∨ remove_dots local' = remove_dots local_part ++ chars "new")
    ∧ remove_dots local' ≠ remove_dots local_part.
Proof.
  intros Hs Hd. destruct (add_dots_shape _ _ _ Hs) as (local' & Heq & _ & _ & Hno).
  exists local'. split_and!; [done|by apply Hno|].
  intros Hsame. destruct (Hno Hd) as [H|H]; rewrite Hsame in H;
    apply (f_equal length) in H; rewrite length_app in H; simpl in H; lia.
Qed.

Lemma add_dots_short_adds_new_witness :
  split_once "@" (chars "a.b@gmail.com") = Some (chars "a.b", chars "gmail.com")
  ∧ dots_only (chars "a.b") = false
  ∧ ∃ local', add_dots_to_email (chars "a.b@gmail.com") = local' ++ "@"%char :: chars "gmail.com"
              ∧ remove_dots local' ≠ remove_dots (chars "a.b").
Proof.
  split_and!; try reflexivity.
  destruct (add_dots_short_adds_new (chars "a.b@gmail.com") (chars "a.b")
              (chars "gmail.com") eq_refl eq_refl) as (local' & H & _ & Hne).
  exists local'. by split.
Defined.

End DotsProps.

(** ** Cookie headers *)

Module CookiesProps.
Import Py Cookies.

Lemma sort_pairs_filters (ps important_cookies other_cookies : list string) :
  sort_pairs ps important_cookies other_cookies
  = (important_cookies ++ filter (fun pr => is_important pr = true) ps,
     other_cookies ++ filter (fun pr => is_important pr = false) ps).
Proof.
  revert important_cookies other_cookies.
  induction ps as [|pr ps IH]; intros imp oth; simpl.
  - by rewrite !app_nil_r.
  - rewrite !filter_cons. destruct (is_important pr) eqn:E; rewrite IH.
    + rewrite decide_True, decide_False by done. by rewrite <- app_assoc.
    + rewrite decide_False, decide_True by done. by rewrite <- app_assoc.
Qed.

Lemma all_cookies_filters (cookies : list cookie) :
  all_cookies cookies
  = filter (fun pr => is_important pr = true) (pairs cookies)
    ++ filter (fun pr => is_important pr = false) (pairs cookies).
Proof. unfold all_cookies. by rewrite sort_pairs_filters. Qed.

Lemma two_filters_permutation (ps : list string) :
  filter (fun pr => is_important pr = true) ps
  ++ filter (fun pr => is_important pr = false) ps ≡ₚ ps.
Proof.
  induction ps as [|pr ps IH]; [done|].
  rewrite !filter_cons. destruct (is_important pr) eqn:E.
  - rewrite decide_True, decide_False by done. simpl. by rewrite IH.
  - rewrite decide_False, decide_True by done.
    rewrite <- Permutation_middle. by rewrite IH.
Qed.

Lemma filter_same_twice (b : bool) (ps : list string) :
  filter (fun pr => is_important pr = b) (filter (fun pr => is_important pr = b) ps)
  = filter (fun pr => is_important pr = b) ps.
Proof.
  induction ps as [|pr l IH]; [done|]. rewrite filter_cons.
  destruct (decide (is_important pr = b)); [|done].
  rewrite filter_cons, decide_True by done. by rewrite IH.
Qed.

Lemma filter_other_empty (b c : bool) (ps : list string) :
  b ≠ c →
  filter (fun pr => is_important pr = c) (filter (fun pr => is_important pr = b) ps) = [].
Proof.
  intros Hbc. induction ps as [|pr l IH]; [done|]. rewrite filter_cons.
  destruct (decide (is_important pr = b)) as [E|E]; [|done].
  rewrite filter_cons, decide_False by congruence. done.
Qed.

(** X19: the complete cookie header lists every pair exactly once (the
    list is a permutation of the pairs), puts every session-critical pair
    before every other pair, and keeps the order that the pairs came in
    within each of the two groups. *)
Theorem all_cookies_is_stable_partition (cookies : list cookie) :
  all_cookies cookies ≡ₚ pairs cookies
  ∧ filter (fun pr => is_important pr = true) (all_cookies cookies)
    = filter (fun pr => is_important pr = true) (pairs cookies)
  ∧ filter (fun pr => is_important pr = false) (all_cookies cookies)
    = filter (fun pr => is_important pr = false) (pairs cookies)
  ∧ (∀ i j x y,
       all_cookies cookies !! i = Some x → all_cookies cookies !! j = Some y →
       is_important x = true → is_important y = false → (i < j)%nat).
Proof.
  rewrite all_cookies_filters.
  pose proof (filter_same_twice true (pairs cookies)) as Hii.
  pose proof (filter_same_twice false (pairs cookies)) as Hoo.
  pose proof (filter_other_empty false true (pairs cookies) ltac:(done)) as Hio.
  pose proof (filter_other_empty true false (pairs cookies) ltac:(done)) as Hoi.
  split_and!.
  - apply two_filters_permutation.
  - by rewrite filter_app, Hii, Hio, app_nil_r.
  - by rewrite filter_app, Hoi, Hoo.
  - intros i j x y Hi Hj Hx Hy.
    apply lookup_app_Some in Hi as [Hi|[_ Hi]].
    + apply lookup_lt_Some in Hi.
      apply lookup_app_Some in Hj as [Hj|[Hj _]]; [|lia].
      apply list_elem_of_lookup_2, list_elem_of_filter in Hj as [Hj _]. congruence.
    + apply list_elem_of_lookup_2, list_elem_of_filter in Hi as [Hi _]. congruence.
Qed.

Lemma pairs_length (cookies : list cookie) :
  length (pairs cookies)
  = length (filter (fun c => filled (name c) && filled (value c) = true) cookies).
Proof.
  induction cookies as [|c cookies IH]; [done|]. simpl. rewrite filter_cons.
  destruct (filled (name c) && filled (value c)).
  - rewrite decide_True by done. simpl. by rewrite IH.
  - by rewrite decide_False by done.
Qed.

(** X20: a cookie with a missing or empty name or value is left out of both
    headers, every other cookie gives one [name=value] pair; when no cookie
    is left the complete header is the text [No cookies found] and the
    plain header is the bare [Cookie: ]. *)
Theorem cookie_headers_skip_unfilled (cookies : list cookie) :
  length (pairs cookies)
  = length (filter (fun c => filled (name c) && filled (value c) = true) cookies)
  ∧ (∀ n v, Cookie (Some n) (Some v) ∈ cookies → n ≠ "" → v ≠ "" →
       n +:+ "=" +:+ v ∈ pairs cookies)
  ∧ (Forall (fun c => filled (name c) && filled (value c) = false) cookies →
     format_complete_cookie_header cookies = "No cookies found"
     ∧ format_cookie_header cookies = "Cookie: ").
Proof.
  split_and!.
  - apply pairs_length.
  - intros n v Hin Hn Hv. induction cookies as [|c cookies IH]; [by apply elem_of_nil in Hin|].
    simpl. apply elem_of_cons in Hin as [<-|Hin].
    + simpl. destruct n; [done|]. destruct v; [done|]. simpl. by left.
    + destruct (filled (name c) && filled (value c)); [right|]; by apply IH.
  - intros H.
    assert (Hp : pairs cookies = []).
    { induction H as [|c cookies Hc _ IH]; [done|]. simpl. by rewrite Hc. }
    unfold format_complete_cookie_header, format_cookie_header. by rewrite Hp.
Qed.

Lemma cookie_headers_skip_unfilled_witness :
  Forall (fun c => filled (name c) && filled (value c) = false)
    [Cookie (Some "session-id") (Some ""); Cookie None (Some "x")]
  ∧ format_complete_cookie_header [Cookie (Some "session-id") (Some ""); Cookie None (Some "x")]
    = "No cookies found".
Proof.
  assert (H : Forall (fun c => filled (name c) && filled (value c) = false)
                [Cookie (Some "session-id") (Some ""); Cookie None (Some "x")])
    by (repeat constructor).
  split; [exact H|].
  exact (proj1 (proj2 (proj2 (cookie_headers_skip_unfilled _)) H)).
Defined.

End CookiesProps.

(** ** Interaction log *)

Module InteractionLogProps.
Import Py InteractionLog.

Section Log.
Variable element_info : Type.





End Log.

End InteractionLogProps.

(** ** Learning from recorded clicks *)

Module ExtractProps.
Import Py Learner Categorizer InteractionLog Extract.

Lemma category_known (ctx : string) (i : interaction) :
  categorize_interaction ctx i
  ∈ ["signin_selectors"; "create_account_selectors"; "continue_selectors"].
Proof.
  unfold categorize_interaction.
  repeat match goal with
         | |- context [if ?b then _ else _] => destruct b
         end; set_solver.
Qed.

Lemma other_lookup_after_add (l : learner) category sel ctx t1 t2 (c : string) :
  c ≠ category →
  learned_selectors (add_selector category sel ctx t1 t2 l) !! c = learned_selectors l !! c.
Proof.
  intros Hc. unfold add_selector. simpl. rewrite lookup_insert_ne by done.
  destruct (learned_selectors l !! category); [done|]. by rewrite lookup_insert_ne.
Qed.

Lemma persisted_after_add (l : learner) category sel ctx t1 t2 :
  persisted (add_selector category sel ctx t1 t2 l).
Proof. unfold persisted, add_selector, save_learned_selectors. simpl. by rewrite lookup_insert_eq. Qed.


Section Clocked.
Variable clock : nat -> string.
Variable page_url : string.

(** The inner loop writes to one category only and forgets nothing. *)
Lemma learn_each_touches (P : string → Prop) category ctx_info element_text element_attributes
    (sels : list string) (s : state) :
  P category →
  let s' := (learn_each clock page_url category ctx_info element_text element_attributes sels s).1 in
  (∀ c, ¬ P c → learned_selectors (the_learner s') !! c = learned_selectors (the_learner s) !! c)
  ∧ (∀ c x, x ∈ learned_of (learned_selectors (the_learner s)) c →
            x ∈ learned_of (learned_selectors (the_learner s')) c).
Proof.
  intros HP. revert s. induction sels as [|sel rest IH]; intros s; [done|].
  cbn [learn_each].
  set (s1 := add_selector_now clock category sel ctx_info s).
  assert (H1 : (∀ c, ¬ P c →
                  learned_selectors (the_learner s1) !! c = learned_selectors (the_learner s) !! c)
               ∧ (∀ c x, x ∈ learned_of (learned_selectors (the_learner s)) c →
                         x ∈ learned_of (learned_selectors (the_learner s1)) c)).
  { split.
    - intros c Hc. apply other_lookup_after_add. by intros ->.
    - intros c x. apply LearnerMore.learned_kept_after_add. }
  destruct (record_interaction _ _ _ _ (the_log s1)) as [f|e]; [|exact H1].
  destruct (IH (State (the_learner s1) f (S (ticks s1)))) as [Ha Hb].
  destruct H1 as [H1a H1b]. split.
  - intros c Hc. rewrite Ha by done. by apply H1a.
  - intros c x Hx. apply Hb. simpl. by apply H1b.
Qed.

Lemma extract_loop_touches (P : string → Prop) (ctx : string) (events : list learning_event)
    (s : state) :
  (∀ i, P (categorize_interaction ctx i)) →
  let s' := (extract_loop clock page_url ctx events s).1 in
  (∀ c, ¬ P c → learned_selectors (the_learner s') !! c = learned_selectors (the_learner s) !! c)
  ∧ (∀ c x, x ∈ learned_of (learned_selectors (the_learner s)) c →
            x ∈ learned_of (learned_selectors (the_learner s')) c).
Proof.
  intros HP. revert s. induction events as [|ev rest IH]; intros s; [done|].
  cbn [extract_loop]. destruct (is_click ev); [|apply IH].
  pose proof (learn_each_touches P (categorize_interaction ctx (ev_interaction ev))
                ("Learned from " +:+ ctx +:+ " - " +:+ default "" (text (ev_interaction ev))
                 +:+ "[:50]")
                (default "" (text (ev_interaction ev))) (attrs (ev_interaction ev))
                (take 3 (default [] (ev_selectors ev))) s (HP _)) as H1.
  destruct (learn_each _ _ _ _ _ _ _ s) as [s1 [e|]]; [exact H1|].
  simpl in H1. destruct H1 as [H1a H1b].
  destruct (IH s1) as [Ha Hb]. split.
  - intros c Hc. rewrite Ha by done. by apply H1a.
  - intros c x Hx. apply Hb. by apply H1b.
Qed.

Lemma extract_touches (P : string → Prop) (ctx : string)
    (data : result (list learning_event)) (s : state) :
  (∀ i, P (categorize_interaction ctx i)) →
  let s' := (extract_learned_selectors clock page_url ctx data s).2 in
  (∀ c, ¬ P c → learned_selectors (the_learner s') !! c = learned_selectors (the_learner s) !! c)
  ∧ (∀ c x, x ∈ learned_of (learned_selectors (the_learner s)) c →
            x ∈ learned_of (learned_selectors (the_learner s')) c).
Proof.
  intros HP. unfold extract_learned_selectors. destruct data as [events|e]; [|done].
  pose proof (extract_loop_touches P ctx events s HP) as H.
  by destruct (extract_loop _ _ _ _ s) as [s1 [e|]].
Qed.

(** X22: extracting learned clicks writes to the three built-in categories
    only, and in the [signin] context to [signin_selectors] only: every
    other category of the store is left exactly as it was; and no locator
    that was learned before is lost, whatever the recorded events are and
    whether or not the run ends in an error. *)
Theorem extract_writes_known_categories (ctx : string)
    (data : result (list learning_event)) (s : state) :
  let s' := (extract_learned_selectors clock page_url ctx data s).2 in
  (∀ c, c ∉ ["signin_selectors"; "create_account_selectors"; "continue_selectors"] →
        learned_selectors (the_learner s') !! c = learned_selectors (the_learner s) !! c)
  ∧ (ctx = "signin" → ∀ c, c ≠ "signin_selectors" →
        learned_selectors (the_learner s') !! c = learned_selectors (the_learner s) !! c)
  ∧ (∀ c x, x ∈ learned_of (learned_selectors (the_learner s)) c →
            x ∈ learned_of (learned_selectors (the_learner s')) c).
Proof.
  intros s'. split_and!.
  - apply (extract_touches
             (fun c => c ∈ ["signin_selectors"; "create_account_selectors"; "continue_selectors"])).
    apply category_known.
  - intros -> c Hc.
    apply (extract_touches (fun c => c = "signin_selectors") "signin" data s); [|done].
    intros i. unfold categorize_interaction. by rewrite decide_True.
  - apply (extract_touches (fun _ => True)). done.
Qed.

Lemma extract_loop_skips (ctx : string) (pre rest : list learning_event) (s : state) :
  Forall (fun e => is_click e = false) pre →
  extract_loop clock page_url ctx (pre ++ rest) s = extract_loop clock page_url ctx rest s.
Proof.
  induction 1 as [|e pre He _ IH]; [done|]. simpl. by rewrite He.
Qed.

(** X23: when the interaction log cannot be read, the first recorded click
    is still learned and saved (its first locator is in the store, under
    the category of the click, and the store is on disk) before the error
    ends the run, and the call reports [0] extracted interactions. *)
Theorem extract_reports_zero_after_learning (ctx : string)
    (pre post : list learning_event) (ev : learning_event) (sel : string) (sels : list string)
    (s : state) :
  the_log s = Some LogUnreadable →
  Forall (fun e => is_click e = false) pre →
  ev_type ev = "click" → ev_selectors ev = Some (sel :: sels) →
  let r := extract_learned_selectors clock page_url ctx (Ok (pre ++ ev :: post)) s in
  r.1 = 0%nat
  ∧ sel ∈ learned_of (learned_selectors (the_learner r.2))
            (categorize_interaction ctx (ev_interaction ev))
  ∧ persisted (the_learner r.2)
  ∧ the_log r.2 = Some LogUnreadable.
Proof.
  intros Hlog Hpre Hty Hsel r. unfold r, extract_learned_selectors.
  rewrite extract_loop_skips by done. cbn [extract_loop].
  unfold is_click. rewrite Hty, Hsel. simpl. rewrite Hlog. simpl.
  split_and!; try done.
  - apply LearnerMore.recorded_is_learned.
  - apply persisted_after_add.
Qed.




End Clocked.

Lemma extract_reports_zero_after_learning_witness :
  let s := State (Learner default_store ∅) (Some LogUnreadable) 0 in
  let ev := LearningEvent "click" (Some ["#go"]) (Interaction (Some "Go") None) in
  let r := extract_learned_selectors (fun _ => "t") "u" "signin" (Ok ([] ++ ev :: [])) s in
  r.1 = 0%nat ∧ "#go" ∈ learned_of (learned_selectors (the_learner r.2)) "signin_selectors".
Proof.
  intros s ev r.
  destruct (extract_reports_zero_after_learning (fun _ => "t") "u" "signin" [] [] ev "#go" [] s
              eq_refl (Forall_nil_2 _) eq_refl eq_refl) as (H0 & H1 & _).
  split; [exact H0|exact H1].
Defined.


End ExtractProps.

(** ** Resolve and click *)

Module ClickProps.
Import Learner Resolver Click.

Lemma find_split (f : string → bool) (l : list string) (x : string) :
  List.find f l = Some x →
  ∃ pre post, l = pre ++ x :: post ∧ f x = true ∧ Forall (fun y => f y = false) pre.
Proof.
  induction l as [|y l IH]; simpl; [done|].
  destruct (f y) eqn:Hy.
  - intros [= ->]. by exists [], l.
  - intros H. destruct (IH H) as (pre & post & -> & Hx & Hpre).
    exists (y :: pre), post. split_and!; try done. by constructor.
Qed.

Lemma static_all_fail (matches : string → bool) (pre : list string) (timeout : Z) :
  Forall (fun y => matches y = false) pre →
  all_fail unit (static_probe matches) tt pre timeout = Some tt.
Proof.
  induction 1 as [|y pre Hy _ IH]; [done|]. simpl. unfold static_probe at 1. by rewrite Hy.
Qed.

Lemma given_nonempty (s : string) : s ≠ "" → given (Some s) = true.
Proof. by destruct s. Qed.

Section Page.
Variable page : Type.
Variable wait_for_selector : page -> string -> Z -> outcome * page.
Variable simulated_click : page -> string -> bool * page.
Variable script_click : page -> string -> bool * page.

(** X25: a click is made only on a locator that the probe found.  Whenever
    the call has a target, the target is not the empty locator, it is the
    last locator probed, and it is one of the given locators or, when a
    category is given, one learned for that category; and without a target
    the call answers [False] and neither click is tried: the page is left
    as the probes left it. *)
Theorem click_target_is_candidate (st : gmap string (list entry)) (pg : page)
    (selectors : list string) (timeout : Z) (learning_category : option string) :
  let r := click_element_robust page wait_for_selector simulated_click script_click
             st pg selectors timeout learning_category in
  let combined := if given learning_category
                  then get_combined_selectors st (default "" learning_category) selectors
                  else selectors in
  (∀ s, target page r = Some s →
        s ≠ "" ∧ last (probed page r) = Some s
        ∧ (s ∈ selectors
           ∨ (given learning_category = true
              ∧ s ∈ learned_of st (default "" learning_category))))
  ∧ (target page r = None →
     clicked page r = false ∧ script_used page r = false
     ∧ page_after page r
       = (find_element_robust page wait_for_selector pg combined timeout).1.2).
Proof.
  intros r combined. unfold r, click_element_robust. fold combined.
  pose proof (ResolverProps.find_result page wait_for_selector combined timeout pg) as H.
  destruct (find_element_robust page wait_for_selector pg combined timeout)
    as [[[w|] pg1] log]; [|by split].
  destruct w as [|a w]; [by split|]. simpl.
  destruct H as (pre & post & pg0 & Hc & _ & _ & ->).
  assert (Hin : String a w ∈ combined) by (rewrite Hc; set_solver).
  assert (Hsrc : String a w ∈ selectors
                 ∨ (given learning_category = true
                    ∧ String a w ∈ learned_of st (default "" learning_category))).
  { unfold combined in Hin. destruct (given learning_category); [|by left].
    unfold get_combined_selectors in Hin. apply elem_of_app in Hin as [Hin|Hin].
    - by right.
    - left. by apply list_elem_of_filter in Hin as [_ Hin]. }
  destruct (simulated_click pg1 (String a w)) as [[] pg2]; simpl.
  - split; [|done]. intros s [= <-]. by rewrite last_snoc.
  - destruct (script_click pg2 (String a w)) as [ok pg3]. simpl.
    split; [|done]. intros s [= <-]. by rewrite last_snoc.
Qed.

End Page.

(** X26: on a document where some locator learned for the category matches,
    the click goes to the first such learned locator, in store order, even
    when given locators match as well; only learned locators are probed;
    and the call answers [True] exactly when the simulated click or, after
    it failed, the script click went through. *)
Theorem click_prefers_learned_locator (matches : string → bool)
    (simulated_click script_click : unit → string → bool * unit)
    (st : gmap string (list entry)) (selectors : list string) (timeout : Z)
    (category sel : string) :
  category ≠ "" → matches "" = false →
  List.find matches (learned_of st category) = Some sel →
  let r := click_element_robust unit (static_probe matches) simulated_click script_click
             st tt selectors timeout (Some category) in
  target unit r = Some sel
  ∧ probed unit r `prefix_of` learned_of st category
  ∧ clicked unit r
    = (simulated_click tt sel).1 || (script_click (simulated_click tt sel).2 sel).1
  ∧ script_used unit r = negb (simulated_click tt sel).1.
Proof.
  intros Hcat Hempty Hfind r. unfold r, click_element_robust.
  rewrite (given_nonempty category Hcat). simpl default.
  destruct (find_split _ _ _ Hfind) as (pre & post & Hl & Hsel & Hpre).
  unfold get_combined_selectors. rewrite Hl, <- app_assoc. simpl app.
  rewrite (ResolverProps.find_first_success unit (static_probe matches) pre _ sel timeout tt tt
             (static_all_fail matches pre timeout Hpre))
    by (unfold static_probe; by rewrite Hsel).
  assert (Hne : sel ≠ "") by (intros ->; congruence).
  rewrite (given_nonempty sel Hne). simpl.
  destruct (simulated_click tt sel) as [[] []]; simpl.
  - split_and!; try done. by exists post; rewrite <- app_assoc.
  - destruct (script_click tt sel) as [ok []]; simpl.
    split_and!; try done. by exists post; rewrite <- app_assoc.
Qed.

Lemma click_prefers_learned_locator_witness :
  let st : gmap string (list entry) :=
    {[ "signin_selectors" := [Entry "#old" "" "t" 1 None; Entry "#learned" "" "t" 1 None] ]} in
  let matches := fun s => String.eqb s "#learned" || String.eqb s "#given" in
  target unit
    (click_element_robust unit (static_probe matches) (fun pg _ => (true, pg))
       (fun pg _ => (false, pg)) st tt ["#given"] 5000 (Some "signin_selectors"))
  = Some "#learned".
Proof.
  intros st matches.
  exact (proj1 (click_prefers_learned_locator matches (fun pg _ => (true, pg))
                  (fun pg _ => (false, pg)) st ["#given"] 5000 "signin_selectors" "#learned"
                  ltac:(done) eq_refl eq_refl)).
Defined.

End ClickProps.

(** ** Access windows and the user cache *)

Module AccessProps.
Import Py Access.

Lemma duration_map_spans (d : string) (span : Z) :
  duration_map d = Some span → span = day ∨ span = 7 * day ∨ span = 30 * day.
Proof.
  unfold duration_map.
  repeat match goal with
         | |- context [decide ?P] => destruct (decide P)
         end; intros [= <-]; auto.
Qed.

Section Config.
Variable ADMIN_USER_ID : Z.

(** X27: a grant lasts exactly its span.  After [add_user_access] with a
    valid duration, a user who is not an administrator is allowed at every
    clock reading up to and including [now + span], where the span is one,
    seven or thirty days, and is refused at every later reading, the
    refusal removing the entry; an earlier grant of the same user, longer
    or not, is replaced. *)
Theorem granted_access_lasts_its_span (now now_granted user_id : Z) (user d : string)
    (r : registry) (span t_admin t : Z) :
  duration_map d = Some span →
  user_id ≠ ADMIN_USER_ID → admin_users r !! user_id = None →
  let r' := (add_user_access now now_granted user_id user d r).2 in
  (span = day ∨ span = 7 * day ∨ span = 30 * day)
  ∧ (t ≤ now + span → is_user_allowed ADMIN_USER_ID t_admin t user_id r' = (true, r'))
  ∧ (now + span < t →
     (is_user_allowed ADMIN_USER_ID t_admin t user_id r').1 = false
     ∧ allowed_users (is_user_allowed ADMIN_USER_ID t_admin t user_id r').2 !! user_id = None).
Proof.
  intros Hd Hu Ha r'. split; [by apply duration_map_spans in Hd|].
  unfold r', add_user_access. rewrite Hd. simpl.
  unfold is_user_allowed, is_admin_user. rewrite !decide_False by done. simpl.
  rewrite Ha. simpl. rewrite lookup_insert_eq. simpl. split; intros Ht.
  - by rewrite (proj2 (Z.ltb_ge _ _)) by lia.
  - rewrite (proj2 (Z.ltb_lt _ _)) by lia. simpl. by rewrite lookup_delete_eq.
Qed.

(** X28: a check touches nobody else.  Whatever it answers,
    [is_user_allowed] leaves the entries of every other user in both
    dictionaries as they were and adds no entry; an administrator is always
    allowed; and for the main administrator both checks answer [True]
    without reading or changing the dictionaries. *)
Theorem access_check_only_drops_own_entry (now_admin now user_id : Z) (r : registry) :
  let r' := (is_user_allowed ADMIN_USER_ID now_admin now user_id r).2 in
  (∀ u, u ≠ user_id →
        allowed_users r' !! u = allowed_users r !! u ∧ admin_users r' !! u = admin_users r !! u)
  ∧ allowed_users r' ⊆ allowed_users r ∧ admin_users r' ⊆ admin_users r
  ∧ ((is_admin_user ADMIN_USER_ID now_admin user_id r).1 = true →
     is_user_allowed ADMIN_USER_ID now_admin now user_id r = (true, r))
  ∧ is_admin_user ADMIN_USER_ID now_admin ADMIN_USER_ID r = (true, r)
  ∧ is_user_allowed ADMIN_USER_ID now_admin now ADMIN_USER_ID r = (true, r).
Proof.
  intros r'. unfold r', is_user_allowed, is_admin_user.
  split_and!; try (by rewrite ?decide_True by done).
  - intros u Hu. destruct (decide (user_id = ADMIN_USER_ID)); [done|].
    destruct (admin_users r !! user_id) as [g|]; simpl.
    + destruct (expires_at g <? now_admin); simpl; [|done].
      destruct (allowed_users r !! user_id) as [g'|]; simpl.
      * destruct (expires_at g' <? now); simpl; by rewrite ?lookup_delete_ne.
      * by rewrite lookup_delete_ne.
    + destruct (allowed_users r !! user_id) as [g'|]; simpl; [|done].
      destruct (expires_at g' <? now); simpl; by rewrite ?lookup_delete_ne.
  - destruct (decide (user_id = ADMIN_USER_ID)); [done|].
    destruct (admin_users r !! user_id) as [g|]; simpl.
    + destruct (expires_at g <? now_admin); simpl; [|done].
      destruct (allowed_users r !! user_id) as [g'|]; simpl; [|done].
      destruct (expires_at g' <? now); simpl; [apply delete_subseteq|done].
    + destruct (allowed_users r !! user_id) as [g'|]; simpl; [|done].
      destruct (expires_at g' <? now); simpl; [apply delete_subseteq|done].
  - destruct (decide (user_id = ADMIN_USER_ID)); [done|].
    destruct (admin_users r !! user_id) as [g|]; simpl.
    + destruct (expires_at g <? now_admin); simpl; [|done].
      destruct (allowed_users r !! user_id) as [g'|]; simpl; [|apply delete_subseteq].
      destruct (expires_at g' <? now); simpl; apply delete_subseteq.
    + destruct (allowed_users r !! user_id) as [g'|]; simpl; [|done].
      destruct (expires_at g' <? now); simpl; done.
  - destruct (decide (user_id = ADMIN_USER_ID)); [done|].
    destruct (admin_users r !! user_id) as [g|]; simpl; [|done].
    destruct (expires_at g <? now_admin); simpl; done.
Qed.

(** X29: a refusal is final until a new grant.  When [is_user_allowed]
    answers [False], the user has no entry left in either dictionary, so
    every later check of that user answers [False] again and changes
    nothing, at any clock reading, earlier ones included. *)
Theorem refused_user_stays_refused (now_admin now user_id : Z) (r : registry)
    (later_admin later : Z) :
  (is_user_allowed ADMIN_USER_ID now_admin now user_id r).1 = false →
  let r' := (is_user_allowed ADMIN_USER_ID now_admin now user_id r).2 in
  allowed_users r' !! user_id = None ∧ admin_users r' !! user_id = None
  ∧ is_user_allowed ADMIN_USER_ID later_admin later user_id r' = (false, r').
Proof.
  intros H r'.
  assert (Hu : user_id ≠ ADMIN_USER_ID).
  { intros ->. unfold is_user_allowed in H. by rewrite decide_True in H. }
  assert (Hr : allowed_users r' !! user_id = None ∧ admin_users r' !! user_id = None).
  { revert H. unfold r', is_user_allowed, is_admin_user. rewrite !decide_False by done.
    destruct (admin_users r !! user_id) as [g|] eqn:Ha; simpl.
    - destruct (expires_at g <? now_admin); simpl; [|done].
      destruct (allowed_users r !! user_id) as [g'|] eqn:Hb; simpl.
      + destruct (expires_at g' <? now); simpl; [|done].
        by rewrite !lookup_delete_eq.
      + by rewrite lookup_delete_eq.
    - destruct (allowed_users r !! user_id) as [g'|] eqn:Hb; simpl; [|done].
      destruct (expires_at g' <? now); simpl; [|done].
      by rewrite lookup_delete_eq. }
  destruct Hr as [Hb Ha]. split_and!; try done.
  unfold is_user_allowed, is_admin_user. rewrite !decide_False by done.
  by rewrite Ha, Hb.
Qed.

End Config.

Lemma granted_access_lasts_its_span_witness :
  is_user_allowed 1 0 (7 * day) 2 (add_user_access 0 5 2 "ann" "Week" (Registry ∅ ∅)).2
  = (true, (add_user_access 0 5 2 "ann" "Week" (Registry ∅ ∅)).2).
Proof.
  apply (proj1 (proj2 (granted_access_lasts_its_span 1 0 5 2 "ann" "Week"
                         (Registry ∅ ∅) (7 * day) 0 (7 * day)
                         eq_refl ltac:(lia) (lookup_empty _)))).
  simpl. lia.
Defined.

Lemma refused_user_stays_refused_witness :
  let r := Registry {[ 2 := Grant "ann" 0 10 "day" ]} ∅ in
  is_user_allowed 1 0 0 2 (is_user_allowed 1 11 11 2 r).2
  = (false, (is_user_allowed 1 11 11 2 r).2).
Proof.
  intros r.
  assert (H : (is_user_allowed 1 11 11 2 r).1 = false).
  { unfold is_user_allowed, is_admin_user, r. rewrite !decide_False by lia.
    cbn [admin_users allowed_users]. rewrite lookup_empty.
    cbn [admin_users allowed_users]. rewrite lookup_singleton_eq. done. }
  exact (proj2 (proj2 (refused_user_stays_refused 1 11 11 2 r 0 0 H))).
Defined.


End AccessProps.
